(** * Linear interpolation CPU kernel (aten/src/ATen/native/cpu/LerpKernel.cpp)

    A shallow embedding of the vectorized [lerp] kernel and of the parts of
    the vector capability it consumes, with the properties of its
    specification stated over it.

    Layout of the development:
    - [IEEE]: binary32 and binary64 arithmetic on [spec_float], with the
      fused multiply-add;
    - [Vec]: the [Vectorized<T>] batch as a vector of lanes;
    - [Elem], [real_elem], [complex_elem]: the capabilities consumed at one
      element type, and the instances reached by the dispatch;
    - [is_lerp_weight_small], [lerp_vec_map], [lerp_vec],
      [lerp_scalar_kernel], [lerp_tensor_kernel]: the source file;
    - the iteration engine and the dispatch macro it is run by;
    - lemmas and theorems. *)

From Stdlib Require Import ZArith QArith Qabs Bool String Floats.SpecFloat Lia.
From stdpp Require Import base list vector fin.

Local Open Scope Z_scope.

(* ===================================================================== *)
(** * IEEE 754 binary formats                                            *)
(* ===================================================================== *)

Module IEEE.

(** The two component precisions reached by
    [AT_DISPATCH_FLOATING_AND_COMPLEX_TYPES]: [float] and [double]. *)
Inductive format := binary32 | binary64.

Definition prec (f : format) : Z :=
  match f with binary32 => 24 | binary64 => 53 end.

Definition emax (f : format) : Z :=
  match f with binary32 => 128 | binary64 => 1024 end.

Definition NaN : spec_float := S754_nan.

Definition is_zero (x : spec_float) : bool :=
  match x with S754_zero _ => true | _ => false end.

(** The values that the format can hold: a canonical significand and an
    exponent in range. *)
Definition valid (f : format) (x : spec_float) : bool :=
  valid_binary (prec f) (emax f) x.

(** [std::isfinite]: neither an infinity nor a NaN. *)
Definition is_finite (x : spec_float) : bool :=
  match x with
  | S754_zero _ | S754_finite _ _ _ => true
  | S754_infinity _ | S754_nan => false
  end.

Section Ops.
Variable f : format.

Definition add : spec_float -> spec_float -> spec_float := SFadd (prec f) (emax f).
Definition sub : spec_float -> spec_float -> spec_float := SFsub (prec f) (emax f).
Definition mul : spec_float -> spec_float -> spec_float := SFmul (prec f) (emax f).
Definition abs : spec_float -> spec_float := SFabs.
Definition ltb : spec_float -> spec_float -> bool := SFltb.
Definition eqb : spec_float -> spec_float -> bool := SFeqb.

(** Literals of the source: [1], [0.5] and [0.25] are powers of two and
    convert exactly to either format. *)
Definition one : spec_float := SFone (prec f) (emax f).
Definition half : spec_float := SFldexp (prec f) (emax f) one (-1).
Definition quarter : spec_float := SFldexp (prec f) (emax f) one (-2).

(** The significand of [1], [0.5] and [0.25]: [2^(prec-1)]. *)
Definition msb : positive :=
  match f with binary32 => 8388608 | binary64 => 4503599627370496 end.

(** The exact value of a product [x * y], before any rounding. *)
Inductive product :=
| P_nan
| P_inf (s : bool)
| P_zero (s : bool)
| P_num (s : bool) (m : positive) (e : Z).

Definition exact_mul (x y : spec_float) : product :=
  match x, y with
  | S754_nan, _ | _, S754_nan => P_nan
  | S754_infinity _, S754_zero _ | S754_zero _, S754_infinity _ => P_nan
  | S754_infinity sx, S754_infinity sy
  | S754_infinity sx, S754_finite sy _ _
  | S754_finite sx _ _, S754_infinity sy => P_inf (xorb sx sy)
  | S754_zero sx, S754_zero sy
  | S754_zero sx, S754_finite sy _ _
  | S754_finite sx _ _, S754_zero sy => P_zero (xorb sx sy)
  | S754_finite sx mx ex, S754_finite sy my ey =>
      P_num (xorb sx sy) (mx * my) (ex + ey)
  end.

(** Modelled from the spec: [vec::fmadd] on one real lane, which lives in
    the vector capability library (ATen/cpu/vec), not in LerpKernel.cpp.
    The glossary defines it as "a single rounding-step operation computing
    a*b+c with one rounding instead of two": the product is kept exact,
    the addend is aligned to it, and the sum is rounded once, to nearest
    even, as [SFadd] rounds a sum.  Infinities, zeros and NaN follow the
    rules of the separate operations. *)
Definition fma (x y z : spec_float) : spec_float :=
  match exact_mul x y with
  | P_nan => S754_nan
  | P_inf s =>
      match z with
      | S754_nan => S754_nan
      | S754_infinity sz => if Bool.eqb s sz then z else S754_nan
      | _ => S754_infinity s
      end
  | P_zero s =>
      match z with
      | S754_zero _ => add (S754_zero s) z
      | _ => z
      end
  | P_num s m e =>
      match z with
      | S754_nan => S754_nan
      | S754_infinity _ => z
      | S754_zero _ =>
          binary_normalize (prec f) (emax f) (cond_Zopp s (Zpos m)) e false
      | S754_finite sz mz ez =>
          let ea := Z.min e ez in
          binary_normalize (prec f) (emax f)
            (cond_Zopp s (Zpos (fst (shl_align m e ea)))
             + cond_Zopp sz (Zpos (fst (shl_align mz ez ea))))
            ea false
      end
  end.
End Ops.

(** Build a float from its integer significand and exponent ([m * 2^e]). *)
Definition of_Z (f : format) (m e : Z) : spec_float :=
  binary_normalize (prec f) (emax f) m e false.

End IEEE.

Local Close Scope Z_scope.

(* ===================================================================== *)
(** * The vector batch                                                    *)
(* ===================================================================== *)

(** Modelled from the spec: the vector-register abstraction [Vectorized<T>]
    (ATen/cpu/vec), which LerpKernel.cpp only consumes.  A batch is "a
    register-width group of elements of one element type"; it is embedded as
    a vector of [n] lanes and every capability (broadcast construction,
    elementwise operations, select-by-mask, store, load) acts lane by lane.
    A mask lane, "materialized as an all-bits or no-bits lane value" in the
    register, is kept as its truth value. *)
Module Vec.
Section Lanes.
Context {A B C D : Type} {n : nat}.

(** [Vectorized<T>(x)] *)
Definition broadcast (x : A) : vec A n := vreplicate n x.

Definition map2 (f : A -> B -> C) (a : vec A n) (b : vec B n) : vec C n :=
  vzip_with f a b.

Definition map3 (f : A -> B -> C -> D)
    (a : vec A n) (b : vec B n) (c : vec C n) : vec D n :=
  vzip_with (fun g z => g z) (vzip_with f a b) c.

(** [v.store(arr)]: the lanes overwrite the first [n] slots of [arr]. *)
Definition store (v : vec A n) (arr : list A) : list A :=
  vec_to_list v ++ drop n arr.

(** [Vectorized<T>::loadu(arr)]: lane [i] is slot [i] of the array. *)
Definition loadu (filler : A) (arr : list A) : vec A n :=
  fun_to_vec (fun i : fin n => default filler (arr !! fin_to_nat i)).
End Lanes.

End Vec.

(* ===================================================================== *)
(** * Element types                                                      *)
(* ===================================================================== *)

(** [c10::complex<value_t>] *)
Record complex := Complex { real : spec_float; imag : spec_float }.

(** The capability set that the templates of LerpKernel.cpp consume at one
    element type [T]: what C++ resolves by template instantiation and
    overloading is passed here as a record. *)
Record Elem (T : Type) := {
  (** lane of a comparison result *)
  mask_t : Type;
  (** [c10::is_complex<scalar_t>::value] *)
  is_complex : bool;
  (** [Vectorized<scalar_t>::size()] *)
  size : nat;
  (** content of a stack slot that was never written *)
  indeterminate : T;
  (** [scalar_t(1)] *)
  one : T;
  (** [operator-], [operator+], [operator*] *)
  minus : T -> T -> T;
  plus : T -> T -> T;
  times : T -> T -> T;
  (** one lane of [vec::fmadd] *)
  fmadd : T -> T -> T -> T;
  (** one lane of [Vectorized<scalar_t>::blendv(a, b, mask)] *)
  blend : T -> T -> mask_t -> T;
  (** the overload of [is_lerp_weight_small] selected at [scalar_t] *)
  weight_small : forall n : nat, vec T n -> vec mask_t n
}.

Arguments mask_t {T} _.
Arguments is_complex {T} _.
Arguments size {T} _.
Arguments indeterminate {T} _.
Arguments one {T} _.
Arguments minus {T} _ _ _.
Arguments plus {T} _ _ _.
Arguments times {T} _ _ _.
Arguments fmadd {T} _ _ _ _.
Arguments blend {T} _ _ _ _.
Arguments weight_small {T} _ {n} _.

(** Modelled from the spec: the scalar [lerp] primitive of
    ATen/native/Lerp.h, which is included by LerpKernel.cpp but is not part
    of it.  The spec gives it as the "one-line" formula
    [result = start + weight*(end-start)], evaluated with the element type's
    own subtraction, multiplication and addition. *)
Definition lerp {T} (E : Elem T) (self_val end_val weight_val : T) : T :=
  plus E self_val (times E weight_val (minus E end_val self_val)).

(* ===================================================================== *)
(** * LerpKernel.cpp                                                     *)
(* ===================================================================== *)

(** ** [is_lerp_weight_small], real element types (lines 12-16) *)
Definition is_lerp_weight_small (f : IEEE.format) {n : nat}
    (weight : vec spec_float n) : vec bool n :=
  Vec.map2 IEEE.ltb (vmap IEEE.abs weight) (Vec.broadcast (IEEE.half f)).

(** Modelled from the spec: [abs_2_], the "squared-magnitude primitive" of
    the complex batch.  It yields a register in the real-component domain in
    which both slots of a complex lane hold [re*re + im*im]. *)
Definition abs_2_ (f : IEEE.format) {n : nat}
    (z : vec complex n) : vec (spec_float * spec_float) n :=
  vmap (fun c =>
          let m := IEEE.add f (IEEE.mul f (real c) (real c))
                              (IEEE.mul f (imag c) (imag c)) in
          (m, m)) z.

(** ** [is_lerp_weight_small], complex element types (lines 22-27).
    The comparison runs on the real-domain register, slot by slot; the
    resulting mask register is then read as a complex batch, a pair of
    component masks per lane. *)
Definition is_lerp_weight_small_complex (f : IEEE.format) {n : nat}
    (weight : vec complex n) : vec (bool * bool) n :=
  let mask :=
    Vec.map2 (fun a b => (IEEE.ltb (fst a) (fst b), IEEE.ltb (snd a) (snd b)))
             (abs_2_ f weight)
             (Vec.broadcast (IEEE.quarter f, IEEE.quarter f)) in
  mask.

Section Templates.
Context {T : Type}.
Variable E : Elem T.

(** The scalar primitive [lerp] that the kernel is compiled against. *)
Variable scalar_lerp : T -> T -> T -> T.

(** ** [lerp_vec_map] (lines 29-45) *)
Definition lerp_vec_map {n : nat} (start end_ weight : vec T n) : vec T n :=
  let start_arr := replicate n (indeterminate E) in
  let end_arr := replicate n (indeterminate E) in
  let weight_arr := replicate n (indeterminate E) in
  let result_arr := replicate n (indeterminate E) in
  let start_arr := Vec.store start start_arr in
  let end_arr := Vec.store end_ end_arr in
  let weight_arr := Vec.store weight weight_arr in
  let at_ (arr : list T) (i : nat) := default (indeterminate E) (arr !! i) in
  let result_arr :=
    foldl (fun result_arr i =>
             <[i := scalar_lerp (at_ start_arr i) (at_ end_arr i) (at_ weight_arr i)]>
               result_arr)
          result_arr (seq 0 n) in
  Vec.loadu (indeterminate E) result_arr.

(** ** [lerp_vec], complex overload of the fallback tier (lines 47-50) *)
Definition lerp_vec_complex {n : nat} (start end_ weight : vec T n) : vec T n :=
  lerp_vec_map start end_ weight.

(** ** [lerp_vec], the general template (lines 53-60) *)
Definition lerp_vec {n : nat} (start end_ weight : vec T n) : vec T n :=
  let mask := weight_small E weight in
  let coeff :=
    Vec.map3 (blend E)
      (Vec.map2 (minus E) weight (Vec.broadcast (one E))) weight mask in
  let base := Vec.map3 (blend E) end_ start mask in
  Vec.map3 (fmadd E) coeff (Vec.map2 (minus E) end_ start) base.

End Templates.

(* ===================================================================== *)
(** * Build configuration and element-type instances                     *)
(* ===================================================================== *)

(** [c10::ScalarType], restricted to the kinds whose treatment the
    specification fixes: the integral and boolean kinds, and the floating
    and complex-floating kinds at single and double precision. *)
Inductive ScalarType :=
| Byte | Char | Short | Int | Long
| Float | Double
| ComplexFloat | ComplexDouble
| Bool.

Definition isFloatingType (t : ScalarType) : bool :=
  match t with Float | Double => true | _ => false end.

Definition isComplexType (t : ScalarType) : bool :=
  match t with ComplexFloat | ComplexDouble => true | _ => false end.

(** The C++ type of one element of a tensor of the given kind. *)
Definition ctype (t : ScalarType) : Type :=
  match t with
  | Byte | Char | Short | Int | Long => Z
  | Float | Double => spec_float
  | ComplexFloat | ComplexDouble => complex
  | Bool => bool
  end.

(** Arithmetic of complex lanes and complex scalars.  Neither
    LerpKernel.cpp nor its specification defines it, so it is left to the
    platform. *)
Record ComplexArith := {
  c_minus : complex -> complex -> complex;
  c_plus : complex -> complex -> complex;
  c_times : complex -> complex -> complex;
  c_fmadd : complex -> complex -> complex -> complex
}.

(** What the build fixes: the two preprocessor symbols tested on line 21,
    the lane count of each batch type, and the complex arithmetic. *)
Record Platform := {
  CPU_CAPABILITY_DEFAULT : bool;
  MSC_VER : bool;
  lanes : ScalarType -> nat;
  complex_arith : IEEE.format -> ComplexArith
}.

(** [#if !defined(CPU_CAPABILITY_DEFAULT) || defined(_MSC_VER)] (line 21):
    the tier on which the complex overload of [is_lerp_weight_small]
    exists. *)
Definition direct_complex (P : Platform) : bool :=
  negb (CPU_CAPABILITY_DEFAULT P) || MSC_VER P.

(** Modelled from the spec: select-by-mask on one real lane,
    [blendv(a, b, mask)] taking [b] where the mask is set. *)
Definition blend_real (a b : spec_float) (mask : bool) : spec_float :=
  if mask then b else a.

(** Modelled from the spec: select-by-mask on one complex lane; the
    register blend works on the two real slots of the lane separately. *)
Definition blend_complex (a b : complex) (mask : bool * bool) : complex :=
  Complex (if fst mask then real b else real a)
          (if snd mask then imag b else imag a).

(** Modelled from the spec: the capabilities at [float] and [double].  The
    lane operations of the batch and the operators of the scalar type are
    the IEEE 754 operations of the format, rounding to nearest even;
    comparison with a NaN is false; [vec::fmadd] is the fused [IEEE.fma]. *)
Definition real_elem (f : IEEE.format) (width : nat) : Elem spec_float := {|
  mask_t := bool;
  is_complex := false;
  size := width;
  indeterminate := IEEE.NaN;
  one := IEEE.one f;
  minus := IEEE.sub f;
  plus := IEEE.add f;
  times := IEEE.mul f;
  fmadd := IEEE.fma f;
  blend := blend_real;
  weight_small := fun n => @is_lerp_weight_small f n
|}.

(** The capabilities at [c10::complex<float>] and [c10::complex<double>],
    over the complex arithmetic [A] of the platform. *)
Definition complex_elem (f : IEEE.format) (width : nat) (A : ComplexArith) :
    Elem complex := {|
  mask_t := (bool * bool)%type;
  is_complex := true;
  size := width;
  indeterminate := Complex IEEE.NaN IEEE.NaN;
  one := Complex (IEEE.one f) (S754_zero false);
  minus := c_minus A;
  plus := c_plus A;
  times := c_times A;
  fmadd := c_fmadd A;
  blend := blend_complex;
  weight_small := fun n => @is_lerp_weight_small_complex f n
|}.

(** Overload resolution for a call [lerp_vec(start, end, weight)]: on the
    fallback tier the complex overload of lines 47-50 is the better match
    for a complex batch; everywhere else the general template is chosen. *)
Definition lerp_vec_at (P : Platform) {T : Type} (E : Elem T)
    (scalar_lerp : T -> T -> T -> T) {n : nat}
    (start end_ weight : vec T n) : vec T n :=
  if is_complex E && negb (direct_complex P)
  then lerp_vec_complex E scalar_lerp start end_ weight
  else lerp_vec E start end_ weight.

(* ===================================================================== *)
(** * The iteration engine and type dispatch                             *)
(* ===================================================================== *)

(** Modelled from the spec: [at::TensorIteratorBase], as far as the kernels
    see it: the declared common element type, the output range and the input
    operands, each a contiguous array of elements of that type. *)
Record TensorIteratorBase := {
  common_dtype : ScalarType;
  output : list (ctype common_dtype);
  inputs : list (list (ctype common_dtype))
}.

Definition with_output (iter : TensorIteratorBase)
    (out : list (ctype (common_dtype iter))) : TensorIteratorBase :=
  {| common_dtype := common_dtype iter; output := out; inputs := inputs iter |}.

(** What a kernel can throw: the unsupported-type error of the dispatch,
    which names the kernel and the type, and the engine's refusal of an
    iterator of the wrong arity. *)
Inductive error :=
| NotImplementedError (name : string) (t : ScalarType)
| InternalAssertError.

(** A kernel either returns or throws; in both cases the iterator, and with
    it the output range, is left in some state. *)
Inductive outcome :=
| Returns (iter : TensorIteratorBase)
| Throws (e : error) (iter : TensorIteratorBase).

Definition final_iter (o : outcome) : TensorIteratorBase :=
  match o with Returns iter | Throws _ iter => iter end.

Section Engine.
Context {T : Type}.
Variable E : Elem T.

(** Modelled from the spec: the loop of the iteration engine
    ([cpu_kernel_vec], ATen/native/cpu/Loops.h) over two input operands.
    It calls "exactly one of" the two callables "per covered position
    (batch callable for full-width-aligned runs, element callable for
    remainder/unaligned positions)". *)
Fixpoint vectorized_loop2 (batches : nat)
    (op : T -> T -> T)
    (vop : vec T (size E) -> vec T (size E) -> vec T (size E))
    (a b : list T) : list T :=
  match batches with
  | O => zip_with op a b
  | S k =>
      vec_to_list (vop (Vec.loadu (indeterminate E) a)
                       (Vec.loadu (indeterminate E) b))
      ++ vectorized_loop2 k op vop (drop (size E) a) (drop (size E) b)
  end.

(** Modelled from the spec: the same loop over three input operands. *)
Fixpoint vectorized_loop3 (batches : nat)
    (op : T -> T -> T -> T)
    (vop : vec T (size E) -> vec T (size E) -> vec T (size E) -> vec T (size E))
    (a b c : list T) : list T :=
  match batches with
  | O => zip_with (fun g z => g z) (zip_with op a b) c
  | S k =>
      vec_to_list (vop (Vec.loadu (indeterminate E) a)
                       (Vec.loadu (indeterminate E) b)
                       (Vec.loadu (indeterminate E) c))
      ++ vectorized_loop3 k op vop
           (drop (size E) a) (drop (size E) b) (drop (size E) c)
  end.

(** The results overwrite the output range from its first position on. *)
Definition write_output (results out : list T) : list T :=
  results ++ drop (length results) out.

End Engine.

(** Modelled from the spec: [at::native::cpu_kernel_vec] for a binary
    callable pair.  The covered positions are those present in both
    operands; an iterator that does not carry exactly two inputs is refused
    before anything is written. *)
Definition cpu_kernel_vec2 (iter : TensorIteratorBase)
    (E : Elem (ctype (common_dtype iter)))
    (op : ctype (common_dtype iter) -> ctype (common_dtype iter) ->
          ctype (common_dtype iter))
    (vop : vec (ctype (common_dtype iter)) (size E) ->
           vec (ctype (common_dtype iter)) (size E) ->
           vec (ctype (common_dtype iter)) (size E)) : outcome :=
  match inputs iter with
  | [a; b] =>
      let numel := length a `min` length b in
      let results := vectorized_loop2 E (numel / size E) op vop a b in
      Returns (with_output iter (write_output results (output iter)))
  | _ => Throws InternalAssertError iter
  end.

(** Modelled from the spec: [at::native::cpu_kernel_vec] for a ternary
    callable pair. *)
Definition cpu_kernel_vec3 (iter : TensorIteratorBase)
    (E : Elem (ctype (common_dtype iter)))
    (op : ctype (common_dtype iter) -> ctype (common_dtype iter) ->
          ctype (common_dtype iter) -> ctype (common_dtype iter))
    (vop : vec (ctype (common_dtype iter)) (size E) ->
           vec (ctype (common_dtype iter)) (size E) ->
           vec (ctype (common_dtype iter)) (size E) ->
           vec (ctype (common_dtype iter)) (size E)) : outcome :=
  match inputs iter with
  | [a; b; c] =>
      let numel := (length a `min` length b) `min` length c in
      let results := vectorized_loop3 E (numel / size E) op vop a b c in
      Returns (with_output iter (write_output results (output iter)))
  | _ => Throws InternalAssertError iter
  end.

Section Kernels.
Variable P : Platform.

(** [c10::Scalar] and its conversion [weight.to<scalar_t>()], which belong
    to the caller's side of the kernel interface. *)
Variable Scalar : Type.
Variable to : forall t : ScalarType, Scalar -> ctype t.

(** The scalar primitive [lerp] of ATen/native/Lerp.h, at each element
    type. *)
Variable scalar_lerp : forall T : Type, Elem T -> T -> T -> T -> T.

(** The instantiation reached for each kind by the dispatch macro. *)
Definition elem_of (t : ScalarType) : option (Elem (ctype t)) :=
  match t return option (Elem (ctype t)) with
  | Double => Some (real_elem IEEE.binary64 (lanes P Double))
  | Float => Some (real_elem IEEE.binary32 (lanes P Float))
  | ComplexDouble =>
      Some (complex_elem IEEE.binary64 (lanes P ComplexDouble)
              (complex_arith P IEEE.binary64))
  | ComplexFloat =>
      Some (complex_elem IEEE.binary32 (lanes P ComplexFloat)
              (complex_arith P IEEE.binary32))
  | _ => None
  end.

(** Modelled from the spec: the macro [AT_DISPATCH_FLOATING_AND_COMPLEX_TYPES]
    of ATen/Dispatch.h.  It "instantiates and invokes the correct per-type
    kernel, failing if the type is outside {floating-point types,
    complex-floating-point types}"; the failure names the kernel and the
    offending type. *)
Definition AT_DISPATCH_FLOATING_AND_COMPLEX_TYPES {R : Type}
    (t : ScalarType) (name : string) (body : Elem (ctype t) -> R) : error + R :=
  match elem_of t with
  | Some E => inr (body E)
  | None => inl (NotImplementedError name t)
  end.

(** An exception that escapes the dispatch leaves the iterator as the
    kernel received it. *)
Definition propagate (iter : TensorIteratorBase) (r : error + outcome) : outcome :=
  match r with
  | inr o => o
  | inl e => Throws e iter
  end.

(** ** [lerp_scalar_kernel] (lines 62-75) *)
Definition lerp_scalar_kernel (iter : TensorIteratorBase) (weight : Scalar) : outcome :=
  propagate iter
    (AT_DISPATCH_FLOATING_AND_COMPLEX_TYPES (common_dtype iter) "lerp_kernel_scalar"
       (fun E =>
          let weight_val := to (common_dtype iter) weight in
          cpu_kernel_vec2 iter E
            (fun self_val end_val =>
               scalar_lerp _ E self_val end_val weight_val)
            (fun self end_ =>
               let weight := Vec.broadcast weight_val in
               lerp_vec_at P E (scalar_lerp _ E) self end_ weight))).

(** ** [lerp_tensor_kernel] (lines 78-89) *)
Definition lerp_tensor_kernel (iter : TensorIteratorBase) : outcome :=
  propagate iter
    (AT_DISPATCH_FLOATING_AND_COMPLEX_TYPES (common_dtype iter) "lerp_kernel_tensor"
       (fun E =>
          cpu_kernel_vec3 iter E
            (fun self_val end_val weight_val =>
               scalar_lerp _ E self_val end_val weight_val)
            (fun self_val end_val weight_val =>
               lerp_vec_at P E (scalar_lerp _ E) self_val end_val weight_val))).

End Kernels.

(* ===================================================================== *)
(** * Notions used in the statements                                     *)
(* ===================================================================== *)

(** The per-element loop that the engine runs when it does not vectorize:
    the scalar callable applied position by position. *)
Definition scalar_loop {T : Type} (op : T -> T -> T -> T)
    (a b c : list T) : list T :=
  zip_with (fun g z => g z) (zip_with op a b) c.

(** What a kernel run leaves in the output range, with its element type,
    and whether the run returned. *)
Definition written (o : outcome) : { t : ScalarType & list (ctype t) } :=
  existT (common_dtype (final_iter o)) (output (final_iter o)).

Definition returned (o : outcome) : bool :=
  match o with Returns _ => true | Throws _ _ => false end.

(** [x == y] of the element type, and bit-for-bit identity except where the
    reference value is a zero (whose sign [==] does not see). *)
Definition same_number (x y : spec_float) : Prop :=
  IEEE.eqb x y = true /\ (IEEE.is_zero y = false -> x = y).

(** [operator==] of [c10::complex]: both components compare equal. *)
Definition complex_eqb (a b : complex) : bool :=
  IEEE.eqb (real a) (real b) && IEEE.eqb (imag a) (imag b).


Definition complex_is_zero (a : complex) : bool :=
  IEEE.is_zero (real a) && IEEE.is_zero (imag a).

Definition complex_is_finite (a : complex) : bool :=
  IEEE.is_finite (real a) && IEEE.is_finite (imag a).

(** Exact (unrounded) arithmetic on rationals, for the algebraic identities
    behind the anchor switch.  [small] stands for the mask. *)
Definition exact_elem (small : Q -> bool) (width : nat) : Elem Q := {|
  mask_t := bool;
  is_complex := false;
  size := width;
  indeterminate := 0%Q;
  one := 1%Q;
  minus := Qminus;
  plus := Qplus;
  times := Qmult;
  fmadd := fun a b c => (a * b + c)%Q;
  blend := fun a b (m : bool) => if m then b else a;
  weight_small := fun n => vmap small
|}.

(** The complex arithmetic built from the component operations in the usual
    way: sums and differences component by component, the product as
    [(ac - bd) + (ad + bc)i], and [a*b + c] as that product followed by the
    sum. *)
Definition componentwise (f : IEEE.format) : ComplexArith := {|
  c_minus := fun a b =>
    Complex (IEEE.sub f (real a) (real b)) (IEEE.sub f (imag a) (imag b));
  c_plus := fun a b =>
    Complex (IEEE.add f (real a) (real b)) (IEEE.add f (imag a) (imag b));
  c_times := fun a b =>
    Complex (IEEE.sub f (IEEE.mul f (real a) (real b)) (IEEE.mul f (imag a) (imag b)))
            (IEEE.add f (IEEE.mul f (real a) (imag b)) (IEEE.mul f (imag a) (real b)));
  c_fmadd := fun a b c =>
    Complex (IEEE.add f (IEEE.sub f (IEEE.mul f (real a) (real b))
                                    (IEEE.mul f (imag a) (imag b))) (real c))
            (IEEE.add f (IEEE.add f (IEEE.mul f (real a) (imag b))
                                    (IEEE.mul f (imag a) (real b))) (imag c))
|}.

(** ** Operations that round nothing away *)






(* ===================================================================== *)
(** * Concrete platforms and data                                        *)
(* ===================================================================== *)

(** A 256-bit build of the direct tier, and the default tier. *)
Definition avx2 : Platform := {|
  CPU_CAPABILITY_DEFAULT := false;
  MSC_VER := false;
  lanes := fun t =>
    match t with
    | Float => 8 | Double | ComplexFloat => 4 | ComplexDouble => 2
    | _ => 0
    end;
  complex_arith := componentwise
|}.

Definition default_tier : Platform := {|
  CPU_CAPABILITY_DEFAULT := true;
  MSC_VER := false;
  lanes := lanes avx2;
  complex_arith := componentwise
|}.

(** Doubles and floats from their significand and exponent. *)
Definition d_of (m e : Z) : spec_float := IEEE.of_Z IEEE.binary64 m e.
Definition s_of (m e : Z) : spec_float := IEEE.of_Z IEEE.binary32 m e.

Definition d_inf : spec_float := S754_infinity false.
Definition d_zero : spec_float := S754_zero false.
Definition d_one : spec_float := d_of 1 0.
Definition d_ten : spec_float := d_of 10 0.
Definition d_quarter : spec_float := d_of 1 (-2).

(** The decimal weight [0.1], rounded to each format. *)
Definition tenth (f : IEEE.format) : spec_float :=
  match f with
  | IEEE.binary32 => s_of 13421773 (-27)
  | IEEE.binary64 => d_of 3602879701896397 (-55)
  end.

Definition d_tenth : spec_float := tenth IEEE.binary64.


(** [double] with four lanes per batch. *)
Definition double4 : Elem spec_float := real_elem IEEE.binary64 4.

(** One batch of doubles: lane 0 interpolates from 1 to 10 with weight 0.1,
    lane 1 starts at infinity with weight 0, lane 2 has a weight whose
    product is exact, lane 3 has a NaN weight. *)
Definition sample_start : vec spec_float 4 := [# d_one; d_inf; d_one; d_zero].
Definition sample_end : vec spec_float 4 := [# d_ten; d_one; d_of 3 0; d_one].
Definition sample_weight : vec spec_float 4 :=
  [# d_tenth; d_zero; d_quarter; IEEE.NaN].

(** The same weights as complex numbers on the real axis. *)
Definition sample_cweight : vec complex 4 :=
  vmap (fun x => Complex x d_zero) sample_weight.

(** One batch of complex doubles on the default tier. *)
Definition cdouble2 : Elem complex :=
  complex_elem IEEE.binary64 2 (componentwise IEEE.binary64).
Definition sample_cstart : vec complex 2 :=
  [# Complex d_one (d_of 2 0); Complex d_zero d_inf].
Definition sample_cend : vec complex 2 :=
  [# Complex (d_of 3 0) (d_of 5 0); Complex d_one d_zero].
Definition sample_cw : vec complex 2 :=
  [# Complex d_quarter d_zero; Complex (d_of 3 (-1)) d_one].

(** Five doubles per operand: one full batch of four and a remainder. *)
Definition five_doubles : TensorIteratorBase :=
  {| common_dtype := Double;
     output := replicate 5 d_zero;
     inputs := [replicate 5 d_one; replicate 5 d_ten; replicate 5 d_tenth] |}.

(** A [Scalar] holding an integer, and its conversion to each element
    type. *)
Definition integral_to (t : ScalarType) (z : Z) : ctype t :=
  match t return ctype t with
  | Byte | Char | Short | Int | Long => z
  | Float => IEEE.of_Z IEEE.binary32 z 0
  | Double => IEEE.of_Z IEEE.binary64 z 0
  | ComplexFloat => Complex (IEEE.of_Z IEEE.binary32 z 0) (S754_zero false)
  | ComplexDouble => Complex (IEEE.of_Z IEEE.binary64 z 0) (S754_zero false)
  | Bool => negb (z =? 0)%Z
  end.

(** An iterator over 32-bit integers. *)
Definition int_iter3 : TensorIteratorBase :=
  {| common_dtype := Int; output := [7; 7; 7]%Z;
     inputs := [[1; 2; 3]; [4; 5; 6]; [0; 1; 0]]%Z |}.

(* ===================================================================== *)
(** * Notions used in the further properties                             *)
(* ===================================================================== *)

(** What a call [lerp_vec(start, end, weight)] computes for one element:
    the call on a batch of a single lane. *)
Definition lane_value (P : Platform) {T : Type} (E : Elem T)
    (scalar_lerp : T -> T -> T -> T) (s e w : T) : T :=
  lerp_vec_at P E scalar_lerp [# s] [# e] [# w] !!! 0%fin.

(** The binary per-element loop, for the scalar-weight kernel. *)
Definition scalar_loop2 {T : Type} (op : T -> T -> T)
    (a b : list T) : list T :=
  zip_with op a b.

(** Negation, conjugation and exchange of the components of a complex
    number. *)
Definition complex_opp (z : complex) : complex :=
  Complex (SFopp (real z)) (SFopp (imag z)).

Definition complex_conj (z : complex) : complex :=
  Complex (real z) (SFopp (imag z)).

Definition complex_swap (z : complex) : complex :=
  Complex (imag z) (real z).

(* ===================================================================== *)
(** * Facts about the vector batch                                       *)
(* ===================================================================== *)

Lemma lookup_broadcast {A n} (x : A) (i : fin n) :
  (Vec.broadcast x : vec A n) !!! i = x.
Proof. apply vlookup_replicate. Qed.

Lemma lookup_map2 {A B C n} (f : A -> B -> C) (a : vec A n) (b : vec B n) i :
  Vec.map2 f a b !!! i = f (a !!! i) (b !!! i).
Proof. apply vlookup_zip_with. Qed.

Lemma lookup_map3 {A B C D n} (f : A -> B -> C -> D)
    (a : vec A n) (b : vec B n) (c : vec C n) i :
  Vec.map3 f a b c !!! i = f (a !!! i) (b !!! i) (c !!! i).
Proof. unfold Vec.map3. by rewrite !vlookup_zip_with. Qed.

Lemma lookup_loadu {A n} (filler : A) (arr : list A) (i : fin n) :
  (Vec.loadu filler arr : vec A n) !!! i = default filler (arr !! fin_to_nat i).
Proof. unfold Vec.loadu. by rewrite lookup_fun_to_vec. Qed.

Lemma lookup_store {A n} (v : vec A n) (arr : list A) (i : fin n) :
  Vec.store v arr !! fin_to_nat i = Some (v !!! i).
Proof.
  unfold Vec.store. rewrite lookup_app_l.
  - by apply vlookup_lookup.
  - rewrite length_vec_to_list. apply fin_to_nat_lt.
Qed.

Lemma loadu_replicate {A n} (filler x : A) (m : nat) :
  n <= m -> (Vec.loadu filler (replicate m x) : vec A n) = Vec.broadcast x.
Proof.
  intros Hm. apply vec_eq. intros i.
  rewrite lookup_loadu, lookup_broadcast.
  pose proof (fin_to_nat_lt i).
  rewrite lookup_replicate_2 by lia. done.
Qed.

Create Rewrite HintDb lanes.
#[local] Hint Rewrite @lookup_broadcast @lookup_map2 @lookup_map3
  @vlookup_map : lanes.

(** One lane of the general [lerp_vec] template, at any element type. *)
Lemma lerp_vec_lane {T} (E : Elem T) {n} (start end_ weight : vec T n) i :
  lerp_vec E start end_ weight !!! i =
  let mask := weight_small E weight !!! i in
  fmadd E (blend E (minus E (weight !!! i) (one E)) (weight !!! i) mask)
          (minus E (end_ !!! i) (start !!! i))
          (blend E (end_ !!! i) (start !!! i) mask).
Proof. unfold lerp_vec. by autorewrite with lanes. Qed.

Lemma is_lerp_weight_small_lane f {n} (weight : vec spec_float n) i :
  is_lerp_weight_small f weight !!! i =
  IEEE.ltb (IEEE.abs (weight !!! i)) (IEEE.half f).
Proof. unfold is_lerp_weight_small. by autorewrite with lanes. Qed.

Lemma is_lerp_weight_small_complex_lane f {n} (weight : vec complex n) i :
  is_lerp_weight_small_complex f weight !!! i =
  let m := IEEE.add f (IEEE.mul f (real (weight !!! i)) (real (weight !!! i)))
                      (IEEE.mul f (imag (weight !!! i)) (imag (weight !!! i))) in
  (IEEE.ltb m (IEEE.quarter f), IEEE.ltb m (IEEE.quarter f)).
Proof.
  unfold is_lerp_weight_small_complex, abs_2_. by autorewrite with lanes.
Qed.

Lemma blend_complex_uniform (a b : complex) (m : bool) :
  blend_complex a b (m, m) = if m then b else a.
Proof. by destruct a, b, m. Qed.

(* ===================================================================== *)
(** * The vectorized formula                                             *)
(* ===================================================================== *)

Lemma lerp_vec_real_lane f width {n}
    (start end_ weight : vec spec_float n) (i : fin n) :
  lerp_vec (real_elem f width) start end_ weight !!! i =
  let mask := IEEE.ltb (IEEE.abs (weight !!! i)) (IEEE.half f) in
  IEEE.fma f
    (if mask then weight !!! i else IEEE.sub f (weight !!! i) (IEEE.one f))
    (IEEE.sub f (end_ !!! i) (start !!! i))
    (if mask then start !!! i else end_ !!! i).
Proof.
  rewrite lerp_vec_lane. cbn [weight_small real_elem fmadd blend minus one].
  rewrite is_lerp_weight_small_lane. unfold blend_real. cbv zeta.
  by destruct (IEEE.ltb _ _).
Qed.

Lemma lerp_vec_complex_lane f width (A : ComplexArith) {n}
    (start end_ weight : vec complex n) (i : fin n) :
  lerp_vec (complex_elem f width A) start end_ weight !!! i =
  let w := weight !!! i in
  let mask :=
    IEEE.ltb (IEEE.add f (IEEE.mul f (real w) (real w))
                         (IEEE.mul f (imag w) (imag w)))
             (IEEE.quarter f) in
  c_fmadd A
    (if mask then w else c_minus A w (Complex (IEEE.one f) (S754_zero false)))
    (c_minus A (end_ !!! i) (start !!! i))
    (if mask then start !!! i else end_ !!! i).
Proof.
  rewrite lerp_vec_lane.
  cbn [weight_small complex_elem fmadd blend minus one].
  rewrite is_lerp_weight_small_complex_lane. cbv zeta.
  rewrite !blend_complex_uniform.
  by destruct (IEEE.ltb _ _).
Qed.

(** A fused multiply-add is not a multiply followed by an add: on
    [0.1 * 9 + 1] the two round differently, in both formats. *)
Lemma fma_is_fused (f : IEEE.format) :
  IEEE.fma f (tenth f) (IEEE.of_Z f 9 0) (IEEE.one f) <>
  IEEE.add f (IEEE.mul f (tenth f) (IEEE.of_Z f 9 0)) (IEEE.one f).
Proof. destruct f; vm_compute; discriminate. Qed.

(** C2. For every start, end and weight batch the vectorized lerp computes,
    at every lane, [coeff = mask ? weight : weight - 1],
    [base = mask ? start : end] and returns the fused multiply-add
    [fmadd(coeff, end - start, base)]: at any element type in terms of its
    [blendv] and [fmadd], on [float] and [double] lanes with the
    mask [|weight| < 0.5], and on complex lanes of the direct tier with the
    mask [|weight|^2 < 0.25] and whatever complex arithmetic the platform
    provides.  On real lanes that single operation rounds once, so it is not
    the same function as a multiply followed by an add. *)
Theorem lerp_vec_formula :
  (forall (T : Type) (E : Elem T) (n : nat)
          (start end_ weight : vec T n) (i : fin n),
      let mask := weight_small E weight !!! i in
      let coeff :=
        blend E (minus E (weight !!! i) (one E)) (weight !!! i) mask in
      let base := blend E (end_ !!! i) (start !!! i) mask in
      lerp_vec E start end_ weight !!! i =
      fmadd E coeff (minus E (end_ !!! i) (start !!! i)) base)
  /\ (forall (f : IEEE.format) (width n : nat)
          (start end_ weight : vec spec_float n) (i : fin n),
      let mask := IEEE.ltb (IEEE.abs (weight !!! i)) (IEEE.half f) in
      let coeff := if mask then weight !!! i
                   else IEEE.sub f (weight !!! i) (IEEE.one f) in
      let base := if mask then start !!! i else end_ !!! i in
      lerp_vec (real_elem f width) start end_ weight !!! i =
      IEEE.fma f coeff (IEEE.sub f (end_ !!! i) (start !!! i)) base)
  /\ (forall (f : IEEE.format) (width : nat) (A : ComplexArith) (n : nat)
             (start end_ weight : vec complex n) (i : fin n),
      let w := weight !!! i in
      let mask :=
        IEEE.ltb (IEEE.add f (IEEE.mul f (real w) (real w))
                             (IEEE.mul f (imag w) (imag w)))
                 (IEEE.quarter f) in
      let coeff := if mask then w
                   else c_minus A w (Complex (IEEE.one f) (S754_zero false)) in
      let base := if mask then start !!! i else end_ !!! i in
      lerp_vec (complex_elem f width A) start end_ weight !!! i =
      c_fmadd A coeff (c_minus A (end_ !!! i) (start !!! i)) base)
  /\ (forall f : IEEE.format,
      exists x y z : spec_float,
        IEEE.fma f x y z <> IEEE.add f (IEEE.mul f x y) z).
Proof.
  split; [|split; [|split]].
  - intros T E n start end_ weight i. cbv zeta. by rewrite lerp_vec_lane.
  - intros f width n start end_ weight i. cbv zeta.
    by rewrite lerp_vec_real_lane.
  - intros f width A n start end_ weight i. cbv zeta.
    by rewrite lerp_vec_complex_lane.
  - intros f. eexists _, _, _. apply fma_is_fused.
Qed.

(* ===================================================================== *)
(** * Rounding of a square against the thresholds                        *)
(* ===================================================================== *)

(** The complex classifier squares the weight and rounds the square before
    comparing it with [0.25].  This section shows that the rounding never
    moves a square across the threshold: for a value [m * 2^e] that the
    format can hold, the rounded square is below [2^-2] exactly when the
    value is below [2^-1].  The argument follows [binary_round_aux]: the
    significand is shifted right to the target exponent, rounded to nearest
    even, and shifted once more if the rounding carried. *)
Section Rounding.
Local Open Scope Z_scope.

(** A significand of [d] binary digits lies in [[2^(d-1), 2^d)]. *)
Lemma digits2_pos_bounds (q : positive) :
  2 ^ (Zpos (digits2_pos q) - 1) <= Zpos q < 2 ^ Zpos (digits2_pos q).
Proof.
  induction q as [q IH|q IH|]; simpl digits2_pos.
  1, 2: rewrite Pos2Z.inj_succ;
    replace (Z.succ (Zpos (digits2_pos q)) - 1)
      with (Z.succ (Zpos (digits2_pos q) - 1)) by lia;
    rewrite !Z.pow_succ_r by lia; lia.
  simpl. lia.
Qed.

Lemma digits2_pos_le (q : positive) (k : Z) :
  Zpos q < 2 ^ k -> Zpos (digits2_pos q) <= k.
Proof.
  intros H. destruct (Z.le_gt_cases (Zpos (digits2_pos q)) k) as [|Hgt]; [done|].
  pose proof (digits2_pos_bounds q) as [Hlo _].
  destruct (Z.lt_ge_cases k 0) as [Hk|Hk].
  - rewrite Z.pow_neg_r in H by lia. lia.
  - assert (2 ^ k <= 2 ^ (Zpos (digits2_pos q) - 1)) by (apply Z.pow_le_mono_r; lia).
    lia.
Qed.

Lemma digits2_pos_ge (q : positive) (k : Z) :
  2 ^ (k - 1) <= Zpos q -> 0 < k -> k <= Zpos (digits2_pos q).
Proof.
  intros H Hk. destruct (Z.le_gt_cases k (Zpos (digits2_pos q))) as [|Hgt]; [done|].
  pose proof (digits2_pos_bounds q) as [_ Hhi].
  assert (2 ^ Zpos (digits2_pos q) <= 2 ^ (k - 1)) by (apply Z.pow_le_mono_r; lia).
  lia.
Qed.

(** Shifting right drops the low bits: the significand is halved. *)
Lemma shr_1_m (mrs : shr_record) :
  0 <= shr_m mrs -> shr_m (shr_1 mrs) = shr_m mrs / 2.
Proof.
  destruct mrs as [m r s]. cbn [shr_m]. intros Hm.
  destruct m as [|[q|q|]|q]; cbn [shr_1 shr_m]; try lia; try reflexivity.
  - apply Z.div_unique with 1; lia.
  - apply Z.div_unique with 0; lia.
Qed.

Lemma pow2_pos (k : Z) : 0 <= k -> 0 < 2 ^ k.
Proof. intros. apply Z.pow_pos_nonneg; lia. Qed.

Lemma shr_iter_m (k : positive) :
  forall mrs, 0 <= shr_m mrs ->
    shr_m (SpecFloat.iter_pos shr_1 k mrs) = shr_m mrs / 2 ^ Zpos k.
Proof.
  induction k as [k IH|k IH|]; intros mrs Hm; cbn [SpecFloat.iter_pos].
  - assert (H1 : 0 <= shr_m (shr_1 mrs)) by (rewrite shr_1_m by done; apply Z.div_pos; lia).
    assert (H2 : 0 <= shr_m (SpecFloat.iter_pos shr_1 k (shr_1 mrs)))
      by (rewrite IH by done; apply Z.div_pos; [done|apply pow2_pos; lia]).
    rewrite IH, IH, shr_1_m by done.
    pose proof (pow2_pos (Zpos k) ltac:(lia)).
    rewrite !Z.div_div by lia.
    f_equal. replace (Zpos k~1) with (1 + Zpos k + Zpos k) by lia.
    rewrite !Z.pow_add_r by lia. lia.
  - assert (H2 : 0 <= shr_m (SpecFloat.iter_pos shr_1 k mrs))
      by (rewrite IH by done; apply Z.div_pos; [done|apply pow2_pos; lia]).
    rewrite IH, IH by done.
    pose proof (pow2_pos (Zpos k) ltac:(lia)).
    rewrite !Z.div_div by lia.
    f_equal. replace (Zpos k~0) with (Zpos k + Zpos k) by lia.
    rewrite !Z.pow_add_r by lia. lia.
  - rewrite shr_1_m by done. reflexivity.
Qed.

(** Rounding to nearest even keeps the truncated significand or adds one. *)
Lemma rne_bounds (m : Z) (l : location) :
  m <= round_nearest_even m l <= m + 1.
Proof.
  destruct l as [|[]]; simpl; try lia. destruct (Z.even m); lia.
Qed.

Section Round.
Variables prec emax : Z.

(** [shr_fexp] brings an exact significand to the exponent the format
    assigns to it, when that exponent is larger. *)
Lemma shr_fexp_spec (M e : Z) :
  0 <= M ->
  let e' := Z.max e (fexp prec emax (Zdigits2 M + e)) in
  exists mrs, shr_fexp prec emax M e loc_Exact = (mrs, e')
              /\ shr_m mrs = M / 2 ^ (e' - e).
Proof.
  intros HM e'. unfold shr_fexp, shr. subst e'.
  set (t := fexp prec emax (Zdigits2 M + e)).
  destruct (t - e) as [|k|k] eqn:Hn.
  - eexists. split; [f_equal; lia|]. cbn [shr_record_of_loc shr_m].
    replace (Z.max e t - e) with 0 by lia. by rewrite Z.div_1_r.
  - eexists. split; [f_equal; lia|].
    rewrite shr_iter_m by done. cbn [shr_record_of_loc shr_m].
    f_equal. f_equal. lia.
  - eexists. split; [f_equal; lia|]. cbn [shr_record_of_loc shr_m].
    replace (Z.max e t - e) with 0 by lia. by rewrite Z.div_1_r.
Qed.

(** The result of rounding [M * 2^e]: the truncated significand [m1], its
    rounding [m1'], and the renormalized pair [(m2, e2)]. *)
Lemma binary_round_aux_spec (sx : bool) (M : positive) (e : Z) :
  exists m1' : Z,
    let e1 := Z.max e (fexp prec emax (Zdigits2 (Zpos M) + e)) in
    let m1 := Zpos M / 2 ^ (e1 - e) in
    let e2 := Z.max e1 (fexp prec emax (Zdigits2 m1' + e1)) in
    let m2 := m1' / 2 ^ (e2 - e1) in
    m1 <= m1' <= m1 + 1 /\
    binary_round_aux prec emax sx (Zpos M) e loc_Exact =
      match m2 with
      | Z0 => S754_zero sx
      | Zpos m =>
          if e2 <=? emax - prec then S754_finite sx m e2 else S754_infinity sx
      | Zneg _ => S754_nan
      end.
Proof.
  unfold binary_round_aux.
  destruct (shr_fexp_spec (Zpos M) e ltac:(lia)) as (mrs1 & -> & Hm1).
  set (e1 := Z.max e _) in *.
  set (m1' := round_nearest_even (shr_m mrs1) (loc_of_shr_record mrs1)).
  assert (Hb : shr_m mrs1 <= m1' <= shr_m mrs1 + 1) by apply rne_bounds.
  assert (H0 : 0 <= shr_m mrs1).
  { rewrite Hm1. apply Z.div_pos; [lia|]. apply pow2_pos. lia. }
  destruct (shr_fexp_spec m1' e1 ltac:(lia)) as (mrs2 & -> & Hm2).
  exists m1'. cbv zeta. rewrite <- Hm1. split; [done|].
  by rewrite Hm2.
Qed.
End Round.

Section Threshold.
Variables prec emax : Z.
Hypothesis Hprec : 2 <= prec.
Hypothesis Hemax : 6 <= emax.

(** The significand of a power of two at full precision. *)
Variable msb : positive.
Hypothesis Hmsb : Zpos msb = 2 ^ (prec - 1).

(** A value of the format has at most [prec] digits, and exactly [prec]
    above the smallest exponent. *)
Lemma bounded_digits (m : positive) (e : Z) :
  bounded prec emax m e = true ->
  Zpos (digits2_pos m) <= prec
  /\ emin prec emax <= e
  /\ (emin prec emax < e -> Zpos (digits2_pos m) = prec).
Proof.
  unfold bounded, canonical_mantissa, fexp. intros [H _]%andb_prop.
  apply Z.eqb_eq in H. lia.
Qed.

Lemma compare_cont_ge (a b : positive) :
  Zpos b <= Zpos a -> Pos.compare_cont Eq a b <> Lt.
Proof.
  intros H. change (Pos.compare_cont Eq a b) with (Pos.compare a b).
  rewrite Pos.compare_lt_iff. lia.
Qed.

(** [|x| < 2^-1] is decided by the exponent alone. *)
Lemma abs_below_half (m : positive) (e : Z) :
  bounded prec emax m e = true ->
  SFltb (S754_finite false m e) (S754_finite false msb (- prec)) = (e <? - prec).
Proof.
  intros Hb. destruct (bounded_digits _ _ Hb) as (Hd & Hmin & Hnorm).
  unfold emin in *. unfold SFltb, SFcompare.
  destruct (Z.compare_spec e (- prec)) as [He|He|He].
  - rewrite (proj2 (Z.ltb_ge _ _)) by lia.
    pose proof (digits2_pos_bounds m) as [Hlo _].
    rewrite Hnorm in Hlo by lia.
    pose proof (compare_cont_ge m msb ltac:(lia)).
    by destruct (Pos.compare_cont Eq m msb).
  - by rewrite (proj2 (Z.ltb_lt _ _)) by lia.
  - by rewrite (proj2 (Z.ltb_ge _ _)) by lia.
Qed.

(** The square of a [d]-digit significand has [2d - 1] or [2d] digits. *)
Lemma digits_square (m : positive) :
  Zpos (digits2_pos (m * m)) <= 2 * Zpos (digits2_pos m)
  /\ 2 * Zpos (digits2_pos m) - 1 <= Zpos (digits2_pos (m * m)).
Proof.
  pose proof (digits2_pos_bounds m) as [Hlo Hhi].
  set (d := Zpos (digits2_pos m)) in *.
  assert (Hd : 0 < d) by (subst d; lia).
  split.
  - apply digits2_pos_le. rewrite Pos2Z.inj_mul.
    replace (2 * d) with (d + d) by lia. rewrite Z.pow_add_r by lia. nia.
  - apply digits2_pos_ge; [|lia]. rewrite Pos2Z.inj_mul.
    replace (2 * d - 1 - 1) with ((d - 1) + (d - 1)) by lia.
    rewrite Z.pow_add_r by lia.
    pose proof (pow2_pos (d - 1) ltac:(lia)). nia.
Qed.

(** Below one half: the rounded square stays strictly below [2^-2], since
    even the largest significand squared cannot round up to it. *)
Lemma square_below_quarter (s : bool) (m : positive) (e : Z) :
  bounded prec emax m e = true ->
  e <= - prec - 1 ->
  SFltb (SFmul prec emax (S754_finite s m e) (S754_finite s m e))
        (S754_finite false msb (- prec - 1)) = true.
Proof.
  intros Hb He. destruct (bounded_digits _ _ Hb) as (Hd & Hmin & _).
  unfold emin in Hmin.
  cbn [SFmul]. rewrite xorb_nilpotent.
  destruct (binary_round_aux_spec prec emax false (m * m) (e + e))
    as (m1' & Hm1 & ->).
  cbv zeta in Hm1.
  destruct (digits_square m) as [HD _].
  pose proof (digits2_pos_bounds (m * m)) as [_ HM].
  pose proof (digits2_pos_bounds m) as [_ Hm].
  cbn [Zdigits2] in *.
  set (D := Zpos (digits2_pos (m * m))) in *.
  set (d := Zpos (digits2_pos m)) in *.
  unfold fexp, emin in *.
  set (e1 := Z.max (e + e) (Z.max (D + (e + e) - prec) (3 - emax - prec))) in *.
  assert (He1 : e1 <= - prec - 2) by lia.
  assert (Hn : 0 <= e1 - (e + e)) by lia.
  pose proof (pow2_pos (e1 - (e + e)) Hn) as Hpow.
  assert (H0 : 0 <= Zpos (m * m) / 2 ^ (e1 - (e + e)))
    by (apply Z.div_pos; lia).
  (* the shifted significand fits in [prec] bits *)
  assert (Hfit : Zpos (m * m) / 2 ^ (e1 - (e + e)) < 2 ^ prec).
  { apply Z.div_lt_upper_bound; [lia|].
    rewrite <- Z.pow_add_r by lia.
    eapply Z.lt_le_trans; [exact HM|]. apply Z.pow_le_mono_r; lia. }
  (* and leaves room for the rounding increment when it is on the msb binade *)
  assert (Hroom : e1 = - prec - 2 ->
                  Zpos (m * m) / 2 ^ (e1 - (e + e)) < 2 ^ prec - 1).
  { intros Heq.
    assert (e = - prec - 1 /\ D = 2 * prec /\ d = prec) as (-> & HDp & Hdp) by lia.
    replace (e1 - (- prec - 1 + (- prec - 1))) with prec by lia.
    rewrite Hdp in Hm. pose proof (pow2_pos prec ltac:(lia)).
    apply Z.div_lt_upper_bound; [lia|]. rewrite Pos2Z.inj_mul. nia. }
  set (e2 := Z.max e1 (Z.max (Zdigits2 m1' + e1 - prec) (3 - emax - prec))).
  assert (He2 : e2 <= - prec - 2).
  { subst e2. destruct m1' as [|q|q]; cbn [Zdigits2]; [lia| |lia].
    destruct (Z.eq_dec e1 (- prec - 2)) as [Heq|Hne].
    - specialize (Hroom Heq).
      assert (Zpos (digits2_pos q) <= prec) by (apply digits2_pos_le; lia).
      lia.
    - assert (Zpos (digits2_pos q) <= prec + 1).
      { apply digits2_pos_le. rewrite Z.pow_add_r by lia. lia. }
      lia. }
  fold e2.
  assert (Hm2 : 0 <= m1' / 2 ^ (e2 - e1)).
  { apply Z.div_pos; [lia|]. apply pow2_pos. subst e2. lia. }
  destruct (m1' / 2 ^ (e2 - e1)) as [|r|r]; [done| |lia].
  rewrite (proj2 (Z.leb_le _ _)) by lia.
  unfold SFltb, SFcompare.
  by rewrite (proj2 (Z.compare_lt_iff _ _)) by lia.
Qed.

(** From one half on: the rounded square is at least [2^-2], or infinite. *)
Lemma square_not_below_quarter (s : bool) (m : positive) (e : Z) :
  bounded prec emax m e = true ->
  - prec <= e ->
  SFltb (SFmul prec emax (S754_finite s m e) (S754_finite s m e))
        (S754_finite false msb (- prec - 1)) = false.
Proof.
  intros Hb He. destruct (bounded_digits _ _ Hb) as (_ & _ & Hnorm).
  unfold emin in Hnorm. specialize (Hnorm ltac:(lia)).
  cbn [SFmul]. rewrite xorb_nilpotent.
  destruct (binary_round_aux_spec prec emax false (m * m) (e + e))
    as (m1' & Hm1 & ->).
  cbv zeta in Hm1.
  destruct (digits_square m) as [_ HD].
  pose proof (digits2_pos_bounds (m * m)) as [HM _].
  cbn [Zdigits2] in *.
  set (D := Zpos (digits2_pos (m * m))) in *.
  rewrite Hnorm in HD.
  unfold fexp, emin in *.
  set (e1 := Z.max (e + e) (Z.max (D + (e + e) - prec) (3 - emax - prec))) in *.
  assert (He1 : e1 = D + (e + e) - prec) by lia.
  replace (e1 - (e + e)) with (D - prec) in Hm1 by lia.
  pose proof (pow2_pos (D - prec) ltac:(lia)) as Hpow.
  pose proof (pow2_pos (prec - 1) ltac:(lia)) as Hpow'.
  assert (Hlow : 2 ^ (prec - 1) <= Zpos (m * m) / 2 ^ (D - prec)).
  { apply Z.div_le_lower_bound; [lia|].
    rewrite <- Z.pow_add_r by lia.
    replace (D - prec + (prec - 1)) with (D - 1) by lia. exact HM. }
  destruct m1' as [|q|q]; [lia| |lia].
  cbn [Zdigits2].
  pose proof (digits2_pos_bounds q) as [Hq _].
  assert (Hdq : prec <= Zpos (digits2_pos q)) by (apply digits2_pos_ge; lia).
  set (dq := Zpos (digits2_pos q)) in *.
  set (e2 := Z.max e1 (Z.max (dq + e1 - prec) (3 - emax - prec))).
  assert (He2 : e2 = dq + e1 - prec) by lia.
  replace (e2 - e1) with (dq - prec) by lia.
  pose proof (pow2_pos (dq - prec) ltac:(lia)) as Hpow2.
  assert (Hlow2 : 2 ^ (prec - 1) <= Zpos q / 2 ^ (dq - prec)).
  { apply Z.div_le_lower_bound; [lia|].
    rewrite <- Z.pow_add_r by lia.
    replace (dq - prec + (prec - 1)) with (dq - 1) by lia. exact Hq. }
  destruct (Zpos q / 2 ^ (dq - prec)) as [|r|r]; [lia| |lia].
  destruct (e2 <=? emax - prec); [|done].
  unfold SFltb, SFcompare.
  destruct (Z.compare_spec e2 (- prec - 1)) as [Heq|Hlt|Hgt]; [|lia|done].
  pose proof (compare_cont_ge r msb ltac:(lia)).
  by destruct (Pos.compare_cont Eq r msb).
Qed.
End Threshold.

End Rounding.

(* ===================================================================== *)
(** * The weight-magnitude classifier                                    *)
(* ===================================================================== *)

Lemma thresholds_canonical f :
  IEEE.half f = S754_finite false (IEEE.msb f) (- IEEE.prec f)
  /\ IEEE.quarter f = S754_finite false (IEEE.msb f) (- IEEE.prec f - 1)
  /\ Zpos (IEEE.msb f) = (2 ^ (IEEE.prec f - 1))%Z
  /\ (2 <= IEEE.prec f)%Z /\ (6 <= IEEE.emax f)%Z.
Proof. destruct f; repeat split; done. Qed.

Lemma ltb_plus_zero f y :
  IEEE.ltb (IEEE.add f y (S754_zero false)) (IEEE.quarter f) =
  IEEE.ltb y (IEEE.quarter f).
Proof. destruct y as [[]| | |]; by destruct f. Qed.

(** A weight on the real axis is classified by its square exactly as it is
    by its magnitude, for every value that the format can hold. *)
Lemma real_axis_classified_alike f x z :
  IEEE.valid f x = true -> IEEE.is_zero z = true ->
  IEEE.ltb (IEEE.add f (IEEE.mul f x x) (IEEE.mul f z z)) (IEEE.quarter f) =
  IEEE.ltb (IEEE.abs x) (IEEE.half f).
Proof.
  intros Hv Hz. destruct z as [sz| | |]; try done.
  replace (IEEE.mul f (S754_zero sz) (S754_zero sz)) with (S754_zero false)
    by (by destruct sz).
  rewrite ltb_plus_zero.
  destruct (thresholds_canonical f) as (Hh & Hq & Hmsb & Hp & He).
  destruct x as [sx|sx| |sx m e].
  - by destruct sx, f.
  - by destruct sx, f.
  - done.
  - unfold IEEE.valid in Hv. cbn [valid_binary] in Hv.
    rewrite Hh, Hq. cbn [IEEE.abs SFabs]. unfold IEEE.ltb, IEEE.mul.
    rewrite (abs_below_half _ _ Hp He _ Hmsb) by done.
    destruct (Z.ltb_spec e (- IEEE.prec f)).
    + apply (square_below_quarter _ _ Hp He); [done|lia].
    + apply (square_not_below_quarter _ _ Hp He _ Hmsb); [done|lia].
Qed.


(** C3. The classifier returns, at every weight lane, true exactly when
    [|weight| < 0.5] on real element types, and on complex element types of
    the direct tier true (in both component slots of the lane) exactly when
    [|weight|^2 < 0.25], the squared magnitude being computed in the
    real-component domain.  The thresholds are the floats [2^-1] and [2^-2],
    with [0.5 * 0.5 = 0.25] exactly.  The two conditions are equivalent: on
    exact numbers, [|q| < 1/2] if and only if [q*q < 1/4]; and on floats, a
    complex weight lying on the real axis receives from the complex
    classifier the mask that the real classifier gives to its real part. *)
Theorem is_lerp_weight_small_spec :
  (forall (f : IEEE.format) (n : nat) (weight : vec spec_float n) (i : fin n),
      is_lerp_weight_small f weight !!! i =
      IEEE.ltb (IEEE.abs (weight !!! i)) (IEEE.half f))
  /\ (forall (f : IEEE.format) (n : nat) (weight : vec complex n) (i : fin n),
      let w := weight !!! i in
      let abs_2 := IEEE.add f (IEEE.mul f (real w) (real w))
                              (IEEE.mul f (imag w) (imag w)) in
      let small := IEEE.ltb abs_2 (IEEE.quarter f) in
      is_lerp_weight_small_complex f weight !!! i = (small, small))
  /\ (forall f : IEEE.format,
      IEEE.half f = IEEE.of_Z f 1 (-1) /\
      IEEE.quarter f = IEEE.of_Z f 1 (-2) /\
      IEEE.mul f (IEEE.half f) (IEEE.half f) = IEEE.quarter f)
  /\ (forall q : Q, (Qabs q < 1 # 2)%Q <-> (q * q < 1 # 4)%Q)
  /\ (forall (f : IEEE.format) (n : nat)
             (weight : vec spec_float n) (cweight : vec complex n) (i : fin n),
      IEEE.valid f (weight !!! i) = true ->
      real (cweight !!! i) = weight !!! i ->
      IEEE.is_zero (imag (cweight !!! i)) = true ->
      is_lerp_weight_small_complex f cweight !!! i =
      (is_lerp_weight_small f weight !!! i,
       is_lerp_weight_small f weight !!! i)).
Proof.
  split; [|split; [|split; [|split]]].
  - intros. by rewrite is_lerp_weight_small_lane.
  - intros f n weight i. cbv zeta.
    by rewrite is_lerp_weight_small_complex_lane.
  - intros f. destruct f; repeat split; vm_compute; reflexivity.
  - intros q.
    assert (Hq : (q * q == Qabs q * Qabs q)%Q).
    { rewrite <- Qabs_Qmult. symmetry. apply Qabs_pos.
      destruct q as [[|p|p] d]; unfold Qle, Qmult; simpl; lia. }
    rewrite Hq. pose proof (Qabs_nonneg q).
    unfold Qlt, Qle, Qmult in *. simpl in *. split; intros; nia.
  - intros f n weight cweight i Hv Hre Him.
    rewrite is_lerp_weight_small_complex_lane, is_lerp_weight_small_lane.
    cbv zeta. rewrite Hre.
    by rewrite (real_axis_classified_alike f _ _ Hv Him).
Qed.

Lemma is_lerp_weight_small_spec_witness :
  IEEE.valid IEEE.binary64 (sample_weight !!! 0%fin) = true
  /\ is_lerp_weight_small_complex IEEE.binary64 sample_cweight !!! 0%fin =
     (is_lerp_weight_small IEEE.binary64 sample_weight !!! 0%fin,
      is_lerp_weight_small IEEE.binary64 sample_weight !!! 0%fin).
Proof.
  split; [reflexivity|].
  apply (proj2 (proj2 (proj2 (proj2 is_lerp_weight_small_spec)))
           IEEE.binary64 4 sample_weight sample_cweight 0%fin);
    reflexivity.
Defined.

(* ===================================================================== *)
(** * The anchor switch, on exact numbers                                *)
(* ===================================================================== *)

Lemma lerp_vec_exact_lane (small : Q -> bool) width {n}
    (start end_ weight : vec Q n) (i : fin n) :
  lerp_vec (exact_elem small width) start end_ weight !!! i =
  ((if small (weight !!! i) then weight !!! i else weight !!! i - 1)
   * (end_ !!! i - start !!! i)
   + (if small (weight !!! i) then start !!! i else end_ !!! i))%Q.
Proof.
  rewrite lerp_vec_lane. cbn. rewrite vlookup_map.
  by destruct (small _).
Qed.

(** C4. On exact numbers the end-anchored expression
    [end + (weight-1)*(end-start)] equals the start-anchored expression
    [start + weight*(end-start)]; these are the values of the vectorized
    formula with the mask false, respectively true, so its two anchor
    branches compute the same number. *)
Theorem anchors_agree_exactly :
  forall (width n : nat) (start end_ weight : vec Q n) (i : fin n),
    let s := start !!! i in
    let e := end_ !!! i in
    let w := weight !!! i in
    (lerp_vec (exact_elem (fun _ => false) width) start end_ weight !!! i
       == e + (w - 1) * (e - s))%Q
    /\ (lerp_vec (exact_elem (fun _ => true) width) start end_ weight !!! i
       == s + w * (e - s))%Q
    /\ (e + (w - 1) * (e - s) == s + w * (e - s))%Q.
Proof.
  intros width n start end_ weight i s e w.
  rewrite !lerp_vec_exact_lane. fold s e w.
  repeat split; ring.
Qed.

(* ===================================================================== *)
(** * The complex fallback                                               *)
(* ===================================================================== *)

Section FillLoop.
Context {A : Type}.
Variable g : nat -> A.

#[local] Abbreviation step := (fun (arr : list A) (i : nat) => <[i := g i]> arr).

Lemma fill_loop_length (l : list nat) (arr : list A) :
  length (foldl step arr l) = length arr.
Proof.
  revert arr. induction l as [|j l IH]; intros arr; simpl; [done|].
  rewrite IH. apply length_insert.
Qed.

Lemma fill_loop_keeps (l : list nat) (arr : list A) (i : nat) :
  arr !! i = Some (g i) -> foldl step arr l !! i = Some (g i).
Proof.
  revert arr. induction l as [|j l IH]; intros arr Hi; simpl; [done|].
  apply IH. destruct (decide (j = i)) as [->|Hne].
  - apply list_lookup_insert_eq. by eapply lookup_lt_Some.
  - by rewrite list_lookup_insert_ne.
Qed.

Lemma fill_loop_writes (l : list nat) (arr : list A) (i : nat) :
  i ∈ l -> i < length arr -> foldl step arr l !! i = Some (g i).
Proof.
  revert arr. induction l as [|j l IH]; intros arr Hin Hlt; simpl.
  - by apply elem_of_nil in Hin.
  - destruct (decide (i = j)) as [->|Hne].
    + apply fill_loop_keeps. by apply list_lookup_insert_eq.
    + apply IH.
      * apply elem_of_cons in Hin as [?|?]; [done|done].
      * by rewrite length_insert.
Qed.
End FillLoop.

Lemma lerp_vec_map_lane {T} (E : Elem T) (scalar_lerp : T -> T -> T -> T)
    {n} (start end_ weight : vec T n) (i : fin n) :
  lerp_vec_map E scalar_lerp start end_ weight !!! i =
  scalar_lerp (start !!! i) (end_ !!! i) (weight !!! i).
Proof.
  unfold lerp_vec_map. cbv zeta. rewrite lookup_loadu.
  pose proof (fin_to_nat_lt i) as Hi.
  rewrite (fill_loop_writes
             (fun j => scalar_lerp
                (default (indeterminate E)
                   (Vec.store start (replicate n (indeterminate E)) !! j))
                (default (indeterminate E)
                   (Vec.store end_ (replicate n (indeterminate E)) !! j))
                (default (indeterminate E)
                   (Vec.store weight (replicate n (indeterminate E)) !! j)))).
  - by rewrite !lookup_store.
  - apply elem_of_seq. lia.
  - by rewrite length_replicate.
Qed.

(** On the fallback tier a complex batch goes lane by lane through the
    scalar lerp. *)
Lemma lerp_vec_at_fallback (P : Platform) (t : ScalarType)
    (E : Elem (ctype t))
    (scalar_lerp : ctype t -> ctype t -> ctype t -> ctype t) {n : nat}
    (start end_ weight : vec (ctype t) n) (i : fin n) :
  elem_of P t = Some E -> isComplexType t = true ->
  direct_complex P = false ->
  lerp_vec_at P E scalar_lerp start end_ weight !!! i =
  scalar_lerp (start !!! i) (end_ !!! i) (weight !!! i).
Proof.
  intros HE Ht HP. unfold lerp_vec_at. rewrite HP.
  destruct t; try discriminate; simpl in HE; injection HE as <-;
    cbn [is_complex complex_elem andb negb]; unfold lerp_vec_complex;
    apply lerp_vec_map_lane.
Qed.

Lemma scalar_loop_vec {T} (op : T -> T -> T -> T) {n} (a b c : vec T n) :
  scalar_loop op (vec_to_list a) (vec_to_list b) (vec_to_list c) =
  vec_to_list (Vec.map3 op a b c).
Proof.
  unfold scalar_loop, Vec.map3. by rewrite !vec_to_list_zip_with.
Qed.

(** C7. On the complex path without the direct capability, the
    unpack/scalar/repack fallback (store each batch to a lane buffer, apply
    the scalar lerp to each lane, reload as a batch) yields, lane for lane,
    the values of the scalar lerp run per element over the same data in a
    non-vectorized loop, whatever the scalar lerp is and whatever the lane
    buffers held before. *)
Theorem complex_fallback_is_scalar_loop :
  forall (P : Platform) (T : Type) (E : Elem T)
         (scalar_lerp : T -> T -> T -> T) (n : nat)
         (start end_ weight : vec T n),
    is_complex E = true ->
    direct_complex P = false ->
    vec_to_list (lerp_vec_at P E scalar_lerp start end_ weight) =
    scalar_loop scalar_lerp
      (vec_to_list start) (vec_to_list end_) (vec_to_list weight)
    /\ forall i : fin n,
        lerp_vec_at P E scalar_lerp start end_ weight !!! i =
        scalar_lerp (start !!! i) (end_ !!! i) (weight !!! i).
Proof.
  intros P T E scalar_lerp n start end_ weight Hc Hd.
  unfold lerp_vec_at, lerp_vec_complex. rewrite Hc, Hd. simpl.
  split.
  - rewrite scalar_loop_vec. f_equal. apply vec_eq. intros i.
    by rewrite lerp_vec_map_lane, lookup_map3.
  - intros i. apply lerp_vec_map_lane.
Qed.

Lemma complex_fallback_is_scalar_loop_witness :
  is_complex cdouble2 = true
  /\ direct_complex default_tier = false
  /\ vec_to_list
       (lerp_vec_at default_tier cdouble2 (lerp cdouble2)
          sample_cstart sample_cend sample_cw) =
     scalar_loop (lerp cdouble2)
       (vec_to_list sample_cstart) (vec_to_list sample_cend)
       (vec_to_list sample_cw).
Proof.
  split; [reflexivity|]. split; [reflexivity|].
  apply (complex_fallback_is_scalar_loop
           default_tier complex cdouble2 (lerp cdouble2) 2
           sample_cstart sample_cend sample_cw);
    reflexivity.
Defined.

(* ===================================================================== *)
(** * The two kernels                                                    *)
(* ===================================================================== *)

(** Over a constant weight array the ternary callables do what the binary
    callables with the captured weight do: on the remainder, *)
Lemma zip_with_constant_weight {T} (op : T -> T -> T -> T) (w : T)
    (a b : list T) :
  zip_with (fun s e => op s e w) a b =
  zip_with (fun g z => g z) (zip_with op a b) (replicate (length a) w).
Proof.
  revert b. induction a as [|x a IH]; intros [|y b]; simpl; try done.
  by rewrite IH.
Qed.

(** and over the batches, where the loaded weight batch is the broadcast
    one. *)
Lemma vectorized_loop_constant_weight {T} (E : Elem T)
    (op : T -> T -> T -> T)
    (vop : vec T (size E) -> vec T (size E) -> vec T (size E) -> vec T (size E))
    (w : T) (k : nat) :
  forall a b : list T,
    k * size E <= length a ->
    vectorized_loop2 E k (fun s e => op s e w)
      (fun s e => vop s e (Vec.broadcast w)) a b =
    vectorized_loop3 E k op vop a b (replicate (length a) w).
Proof.
  induction k as [|k IH]; intros a b Hk; simpl.
  - apply zip_with_constant_weight.
  - rewrite loadu_replicate by lia.
    rewrite IH by (rewrite length_drop; lia).
    by rewrite drop_replicate, length_drop.
Qed.

Lemma full_batches_fit (numel n len : nat) :
  numel <= len -> numel / n * n <= len.
Proof.
  intros H. destruct n as [|n]; [simpl; lia|].
  pose proof (Nat.Div0.mul_div_le numel (S n)). lia.
Qed.

(** C6. For every weight value [w] and every pair of inputs, the
    scalar-weight kernel invoked with [w] leaves in the output range, at
    every position, what the tensor-weight kernel leaves there when invoked
    with a weight array every element of which is [w] (converted to the
    element type); the one returns exactly when the other does, which is
    when the element type is a floating-point or complex-floating-point
    type.  This holds whatever the scalar lerp and the weight conversion
    are. *)
Theorem scalar_weight_is_constant_tensor_weight :
  forall (P : Platform) (Scalar : Type)
         (to : forall t : ScalarType, Scalar -> ctype t)
         (scalar_lerp : forall T : Type, Elem T -> T -> T -> T -> T)
         (t : ScalarType) (out self end_ : list (ctype t)) (w : Scalar),
    let weight := replicate (length self) (to t w) in
    let by_scalar :=
      lerp_scalar_kernel P Scalar to scalar_lerp
        {| common_dtype := t; output := out; inputs := [self; end_] |} w in
    let by_tensor :=
      lerp_tensor_kernel P scalar_lerp
        {| common_dtype := t; output := out; inputs := [self; end_; weight] |} in
    written by_scalar = written by_tensor
    /\ returned by_scalar = returned by_tensor
    /\ returned by_scalar = isFloatingType t || isComplexType t.
Proof.
  intros P Scalar to scalar_lerp t out self end_ w weight by_scalar by_tensor.
  subst by_scalar by_tensor.
  unfold lerp_scalar_kernel, lerp_tensor_kernel,
    AT_DISPATCH_FLOATING_AND_COMPLEX_TYPES, propagate.
  cbn [common_dtype].
  assert (Hsupported :
            isFloatingType t || isComplexType t =
            match elem_of P t with Some _ => true | None => false end)
    by (by destruct t).
  rewrite Hsupported.
  destruct (elem_of P t) as [E|]; [|done].
  unfold cpu_kernel_vec2, cpu_kernel_vec3, written, returned, with_output.
  cbn [inputs common_dtype output final_iter].
  subst weight. rewrite length_replicate.
  replace ((length self `min` length end_) `min` length self)
    with (length self `min` length end_) by lia.
  rewrite (vectorized_loop_constant_weight E
             (scalar_lerp (ctype t) E)
             (fun s e v => lerp_vec_at P E (scalar_lerp (ctype t) E) s e v)).
  - done.
  - apply full_batches_fit. lia.
Qed.

(** C8. When the common element type is neither a floating-point nor a
    complex-floating-point type, both kernels fail at dispatch with the
    unsupported-type error naming the kernel and the type; the iterator is
    handed back as it was received, so nothing has been written to the
    output, and the failure does not depend on the scalar formula or on the
    weight conversion, none of which has run. *)
Theorem unsupported_dtype_fails_at_dispatch :
  forall (P : Platform) (Scalar : Type)
         (to : forall t : ScalarType, Scalar -> ctype t)
         (scalar_lerp : forall T : Type, Elem T -> T -> T -> T -> T)
         (iter : TensorIteratorBase) (weight : Scalar),
    isFloatingType (common_dtype iter) = false ->
    isComplexType (common_dtype iter) = false ->
    lerp_scalar_kernel P Scalar to scalar_lerp iter weight =
      Throws (NotImplementedError "lerp_kernel_scalar" (common_dtype iter)) iter
    /\ lerp_tensor_kernel P scalar_lerp iter =
      Throws (NotImplementedError "lerp_kernel_tensor" (common_dtype iter)) iter.
Proof.
  intros P Scalar to scalar_lerp [t out ins] weight Hf Hc.
  unfold lerp_scalar_kernel, lerp_tensor_kernel,
    AT_DISPATCH_FLOATING_AND_COMPLEX_TYPES, propagate.
  cbn [common_dtype] in *.
  destruct t; simpl in Hf, Hc; try discriminate; done.
Qed.

Lemma unsupported_dtype_fails_at_dispatch_witness :
  isFloatingType (common_dtype int_iter3) = false
  /\ isComplexType (common_dtype int_iter3) = false
  /\ lerp_scalar_kernel avx2 Z integral_to (@lerp) int_iter3 2%Z =
       Throws (NotImplementedError "lerp_kernel_scalar" Int) int_iter3
  /\ lerp_tensor_kernel avx2 (@lerp) int_iter3 =
       Throws (NotImplementedError "lerp_kernel_tensor" Int) int_iter3.
Proof.
  split; [reflexivity|]. split; [reflexivity|].
  apply (unsupported_dtype_fails_at_dispatch
           avx2 Z integral_to (@lerp) int_iter3 2%Z); reflexivity.
Defined.

(* ===================================================================== *)
(** * Facts about the floating-point operations                          *)
(* ===================================================================== *)

Lemma fadd_comm f x y : IEEE.add f x y = IEEE.add f y x.
Proof.
  unfold IEEE.add.
  destruct x as [sx|sx| |sx mx ex], y as [sy|sy| |sy my ey]; simpl;
    try reflexivity; try (by destruct sx, sy).
  by rewrite Z.min_comm, Z.add_comm.
Qed.

Lemma sub_finite_inv f x y :
  IEEE.is_finite (IEEE.sub f x y) = true ->
  IEEE.is_finite x = true /\ IEEE.is_finite y = true.
Proof.
  destruct x as [sx|sx| |sx mx ex], y as [sy|sy| |sy my ey]; simpl;
    try done; by destruct sx, sy.
Qed.

Lemma eqb_refl_finite x : IEEE.is_finite x = true -> IEEE.eqb x x = true.
Proof.
  destruct x as [s|s| |s m e]; simpl; try done.
  intros _. unfold IEEE.eqb, SFeqb, SFcompare.
  rewrite Z.compare_refl, Pos.compare_cont_refl. by destruct s.
Qed.

Lemma same_number_finite x : IEEE.is_finite x = true -> same_number x x.
Proof. intros H. split; [by apply eqb_refl_finite|done]. Qed.

Lemma same_number_zeros s1 s2 : same_number (S754_zero s1) (S754_zero s2).
Proof. split; [done|]. simpl. discriminate. Qed.

Lemma abs_zero_small f x :
  IEEE.is_zero x = true -> IEEE.ltb (IEEE.abs x) (IEEE.half f) = true.
Proof. destruct x; try done. intros _. by destruct f. Qed.





(** A zero coefficient times an infinite or NaN difference is NaN. *)
Lemma fma_zero_coeff_nonfinite f c d z :
  IEEE.is_zero c = true -> IEEE.is_finite d = false ->
  IEEE.fma f c d z = IEEE.NaN.
Proof.
  destruct c as [sc| | |]; try done. intros _.
  by destruct d as [sd|sd| |sd md ed].
Qed.



Lemma zero_times_nonfinite f c d :
  IEEE.is_zero c = true -> IEEE.is_finite d = false ->
  IEEE.mul f c d = IEEE.NaN /\ IEEE.mul f d c = IEEE.NaN.
Proof. by destruct c, d. Qed.



Lemma add_nan_l f x : IEEE.add f IEEE.NaN x = IEEE.NaN.
Proof. done. Qed.

Lemma add_nan_r f x : IEEE.add f x IEEE.NaN = IEEE.NaN.
Proof. by destruct x. Qed.

Lemma sub_nan_l f x : IEEE.sub f IEEE.NaN x = IEEE.NaN.
Proof. done. Qed.

Lemma sub_nan_r f x : IEEE.sub f x IEEE.NaN = IEEE.NaN.
Proof. by destruct x. Qed.

Create Rewrite HintDb nan.
#[local] Hint Rewrite add_nan_l add_nan_r sub_nan_l sub_nan_r : nan.

Lemma abs_2_zero_small f a b :
  IEEE.is_zero a = true -> IEEE.is_zero b = true ->
  IEEE.ltb (IEEE.add f (IEEE.mul f a a) (IEEE.mul f b b)) (IEEE.quarter f) = true.
Proof.
  destruct a as [sa| | |], b as [sb| | |]; try done. by destruct sa, sb, f.
Qed.


(** The same facts for complex lanes under the component-wise arithmetic. *)
Lemma complex_finite_inv a :
  complex_is_finite a = true ->
  IEEE.is_finite (real a) = true /\ IEEE.is_finite (imag a) = true.
Proof. unfold complex_is_finite. by intros [??]%andb_prop. Qed.

Lemma complex_zero_inv a :
  complex_is_zero a = true ->
  IEEE.is_zero (real a) = true /\ IEEE.is_zero (imag a) = true.
Proof. unfold complex_is_zero. by intros [??]%andb_prop. Qed.

Lemma c_minus_finite_inv f a b :
  complex_is_finite (c_minus (componentwise f) a b) = true ->
  complex_is_finite a = true /\ complex_is_finite b = true.
Proof.
  intros [H1 H2]%complex_finite_inv. cbn in H1, H2.
  apply sub_finite_inv in H1 as [??]. apply sub_finite_inv in H2 as [??].
  unfold complex_is_finite. split; by apply andb_true_intro.
Qed.




Lemma c_fmadd_zero_coeff_nonfinite f c d z :
  complex_is_zero c = true -> complex_is_finite d = false ->
  c_fmadd (componentwise f) c d z = Complex IEEE.NaN IEEE.NaN.
Proof.
  intros [Hc1 Hc2]%complex_zero_inv Hd. cbn.
  unfold complex_is_finite in Hd. apply andb_false_iff in Hd as [Hd|Hd].
  - destruct (zero_times_nonfinite f _ _ Hc1 Hd) as [-> _].
    destruct (zero_times_nonfinite f _ _ Hc2 Hd) as [-> _].
    by autorewrite with nan.
  - destruct (zero_times_nonfinite f _ _ Hc2 Hd) as [-> _].
    destruct (zero_times_nonfinite f _ _ Hc1 Hd) as [-> _].
    by autorewrite with nan.
Qed.


(* ===================================================================== *)
(** * Special weights on real lanes                                      *)
(* ===================================================================== *)

Lemma lerp_vec_small_weight f width {n}
    (start end_ weight : vec spec_float n) (i : fin n) :
  IEEE.ltb (IEEE.abs (weight !!! i)) (IEEE.half f) = true ->
  lerp_vec (real_elem f width) start end_ weight !!! i =
  IEEE.fma f (weight !!! i) (IEEE.sub f (end_ !!! i) (start !!! i)) (start !!! i).
Proof.
  intros H. rewrite lerp_vec_real_lane. cbv zeta. by rewrite H.
Qed.

Lemma lerp_vec_large_weight f width {n}
    (start end_ weight : vec spec_float n) (i : fin n) :
  IEEE.ltb (IEEE.abs (weight !!! i)) (IEEE.half f) = false ->
  lerp_vec (real_elem f width) start end_ weight !!! i =
  IEEE.fma f (IEEE.sub f (weight !!! i) (IEEE.one f))
             (IEEE.sub f (end_ !!! i) (start !!! i)) (end_ !!! i).
Proof.
  intros H. rewrite lerp_vec_real_lane. cbv zeta. by rewrite H.
Qed.

(** C9. On a real lane whose weight is NaN the magnitude mask is false, so
    the vectorized formula takes the end-anchored branch with the
    coefficient [NaN - 1], itself NaN, and the result of the lane is NaN. *)
Theorem nan_weight_gives_nan :
  forall (f : IEEE.format) (width n : nat)
         (start end_ weight : vec spec_float n) (i : fin n),
    weight !!! i = IEEE.NaN ->
    is_lerp_weight_small f weight !!! i = false
    /\ lerp_vec (real_elem f width) start end_ weight !!! i =
       IEEE.fma f (IEEE.sub f IEEE.NaN (IEEE.one f))
                  (IEEE.sub f (end_ !!! i) (start !!! i)) (end_ !!! i)
    /\ IEEE.sub f IEEE.NaN (IEEE.one f) = IEEE.NaN
    /\ lerp_vec (real_elem f width) start end_ weight !!! i = IEEE.NaN.
Proof.
  intros f width n start end_ weight i Hw.
  assert (Hm : IEEE.ltb (IEEE.abs (weight !!! i)) (IEEE.half f) = false)
    by (by rewrite Hw).
  rewrite is_lerp_weight_small_lane, lerp_vec_large_weight by done.
  rewrite Hw. done.
Qed.

Lemma nan_weight_gives_nan_witness :
  sample_weight !!! 3%fin = IEEE.NaN
  /\ lerp_vec double4 sample_start sample_end sample_weight !!! 3%fin = IEEE.NaN.
Proof.
  split; [reflexivity|].
  apply (nan_weight_gives_nan IEEE.binary64 4 4
           sample_start sample_end sample_weight 3%fin).
  reflexivity.
Defined.

Lemma lerp_vec_complex_small_weight f width (A : ComplexArith) {n}
    (start end_ weight : vec complex n) (i : fin n) :
  IEEE.ltb (IEEE.add f (IEEE.mul f (real (weight !!! i)) (real (weight !!! i)))
                       (IEEE.mul f (imag (weight !!! i)) (imag (weight !!! i))))
           (IEEE.quarter f) = true ->
  lerp_vec (complex_elem f width A) start end_ weight !!! i =
  c_fmadd A (weight !!! i) (c_minus A (end_ !!! i) (start !!! i)) (start !!! i).
Proof.
  intros H. rewrite lerp_vec_complex_lane. cbv zeta. by rewrite H.
Qed.


(** C10. On a lane whose weight is a zero while [end - start] is not finite
    (an infinity or a NaN), the vectorized formula returns NaN, which is not
    equal to start; so the identity [lerp(start, end, 0) == start] holds on a
    lane only when [end - start] is finite there.  This is so on [float] and
    [double] lanes, and on complex lanes under the component-wise complex
    arithmetic, where a non-finite component of [end - start] makes both
    components of the result NaN. *)
Theorem zero_weight_nonfinite_difference :
  (forall (f : IEEE.format) (width n : nat)
          (start end_ weight : vec spec_float n) (i : fin n),
      IEEE.is_zero (weight !!! i) = true ->
      let r := lerp_vec (real_elem f width) start end_ weight !!! i in
      let d := IEEE.sub f (end_ !!! i) (start !!! i) in
      (IEEE.is_finite d = false ->
         r = IEEE.NaN /\ IEEE.eqb r (start !!! i) = false)
      /\ (IEEE.eqb r (start !!! i) = true -> IEEE.is_finite d = true))
  /\ (forall (f : IEEE.format) (width n : nat)
             (start end_ weight : vec complex n) (i : fin n),
      complex_is_zero (weight !!! i) = true ->
      let A := componentwise f in
      let r := lerp_vec (complex_elem f width A) start end_ weight !!! i in
      let d := c_minus A (end_ !!! i) (start !!! i) in
      (complex_is_finite d = false ->
         r = Complex IEEE.NaN IEEE.NaN /\ complex_eqb r (start !!! i) = false)
      /\ (complex_eqb r (start !!! i) = true -> complex_is_finite d = true)).
Proof.
  split.
  - intros f width n start end_ weight i Hw r d.
    assert (Hr : IEEE.is_finite d = false -> r = IEEE.NaN).
    { intros Hd. subst r.
      rewrite lerp_vec_small_weight by (by apply abs_zero_small).
      by apply fma_zero_coeff_nonfinite. }
    split.
    + intros Hd. rewrite (Hr Hd). done.
    + intros Heq. destruct (IEEE.is_finite d) eqn:Hd; [done|].
      rewrite (Hr eq_refl) in Heq. discriminate.
  - intros f width n start end_ weight i Hw A r d.
    assert (Hr : complex_is_finite d = false -> r = Complex IEEE.NaN IEEE.NaN).
    { intros Hd. subst r.
      destruct (complex_zero_inv _ Hw) as [Hw1 Hw2].
      rewrite lerp_vec_complex_small_weight by (by apply abs_2_zero_small).
      by apply c_fmadd_zero_coeff_nonfinite. }
    split.
    + intros Hd. rewrite (Hr Hd). done.
    + intros Heq. destruct (complex_is_finite d) eqn:Hd; [done|].
      rewrite (Hr eq_refl) in Heq. discriminate.
Qed.

Lemma zero_weight_nonfinite_difference_witness :
  IEEE.is_zero (sample_weight !!! 1%fin) = true
  /\ IEEE.is_finite
       (IEEE.sub IEEE.binary64 (sample_end !!! 1%fin) (sample_start !!! 1%fin))
     = false
  /\ lerp_vec double4 sample_start sample_end sample_weight !!! 1%fin = IEEE.NaN.
Proof.
  split; [reflexivity|]. split; [reflexivity|].
  apply (proj1 zero_weight_nonfinite_difference IEEE.binary64 4 4
           sample_start sample_end sample_weight 1%fin);
    reflexivity.
Defined.

(* ===================================================================== *)
(** * Rounding depends on the value only                                 *)
(* ===================================================================== *)

(** [binary_round] and [binary_normalize] take a significand and an
    exponent; what they return depends only on the number these denote.
    This is what makes an operation whose result is exact invisible to the
    operation that follows it. *)
Section Value.
Local Open Scope Z_scope.
Variables prec emax : Z.










End Value.

(* ===================================================================== *)
(** * Exact products and exact differences                               *)
(* ===================================================================== *)

Section ExactOperations.
Local Open Scope Z_scope.









End ExactOperations.

Section ExactDifference.
Local Open Scope Z_scope.







End ExactDifference.




(* ===================================================================== *)
(** * Endpoints                                                          *)
(* ===================================================================== *)




(* ===================================================================== *)
(** * Batch formula against scalar formula                               *)
(* ===================================================================== *)




(* ===================================================================== *)
(** * Further properties: lanes                                          *)
(* ===================================================================== *)

(** Whatever the width of the batch, a lane holds what the single-lane
    call gives on the values of that lane. *)
Lemma lerp_vec_at_lanewise (P : Platform) (t : ScalarType)
    (E : Elem (ctype t))
    (scalar_lerp : ctype t -> ctype t -> ctype t -> ctype t) {n : nat}
    (start end_ weight : vec (ctype t) n) (i : fin n) :
  elem_of P t = Some E ->
  lerp_vec_at P E scalar_lerp start end_ weight !!! i =
  lane_value P E scalar_lerp (start !!! i) (end_ !!! i) (weight !!! i).
Proof.
  intros HE. unfold lane_value.
  destruct t; simpl in HE; try discriminate;
    injection HE as <-; unfold lerp_vec_at;
    cbn [is_complex real_elem complex_elem]; cbn [andb].
  1, 2: by rewrite !lerp_vec_real_lane.
  all: destruct (direct_complex P); cbn [negb];
    [ by rewrite !lerp_vec_complex_lane
    | unfold lerp_vec_complex; by rewrite !lerp_vec_map_lane ].
Qed.

(** X1. For each element type that the dispatch instantiates, and on either
    tier, the value that [lerp_vec] leaves in a lane depends only on what
    that lane of its three arguments holds: two calls, on batches of any
    widths, agree at any two lanes that hold the same start, end and
    weight. *)
Theorem lerp_vec_lane_by_lane :
  forall (P : Platform) (t : ScalarType) (E : Elem (ctype t))
         (scalar_lerp : ctype t -> ctype t -> ctype t -> ctype t)
         (n n' : nat)
         (start end_ weight : vec (ctype t) n)
         (start' end_' weight' : vec (ctype t) n')
         (i : fin n) (j : fin n'),
    elem_of P t = Some E ->
    start !!! i = start' !!! j ->
    end_ !!! i = end_' !!! j ->
    weight !!! i = weight' !!! j ->
    lerp_vec_at P E scalar_lerp start end_ weight !!! i =
    lerp_vec_at P E scalar_lerp start' end_' weight' !!! j.
Proof.
  intros P t E scalar_lerp n n' start end_ weight start' end_' weight' i j
         HE Hs He Hw.
  rewrite !(lerp_vec_at_lanewise P t E) by done.
  by rewrite Hs, He, Hw.
Qed.

Lemma lerp_vec_lane_by_lane_witness :
  elem_of avx2 Double = Some double4
  /\ lerp_vec_at avx2 double4 (lerp double4)
       sample_start sample_end sample_weight !!! 2%fin =
     lerp_vec_at avx2 double4 (lerp double4)
       [# d_zero; d_one] [# d_ten; d_of 3 0] [# d_one; d_quarter] !!! 1%fin.
Proof.
  split; [reflexivity|].
  apply (lerp_vec_lane_by_lane avx2 Double double4 (lerp double4) 4 2
           sample_start sample_end sample_weight
           [# d_zero; d_one] [# d_ten; d_of 3 0] [# d_one; d_quarter]
           2%fin 1%fin);
    reflexivity.
Defined.

(* ===================================================================== *)
(** * Further properties: the kernels, position by position              *)
(* ===================================================================== *)

Lemma vec_to_list_loadu {A n} (filler : A) (arr : list A) :
  n <= length arr ->
  vec_to_list (Vec.loadu filler arr : vec A n) = take n arr.
Proof.
  intros Hn.
  apply (list_eq_same_length _ _ n).
  - rewrite length_take. lia.
  - apply length_vec_to_list.
  - intros j x y Hj Hx Hy.
    apply vlookup_lookup' in Hx as [Hlt Hx].
    rewrite lookup_loadu, fin_to_nat_to_fin in Hx.
    rewrite lookup_take_lt in Hy by done.
    rewrite Hy in Hx. done.
Qed.

Lemma length_scalar_loop {T} (op : T -> T -> T -> T) (a b c : list T) :
  length (scalar_loop op a b c) = (length a `min` length b) `min` length c.
Proof. unfold scalar_loop. by rewrite !length_zip_with. Qed.

Lemma scalar_loop_app {T} (op : T -> T -> T -> T)
    (a1 a2 b1 b2 c1 c2 : list T) :
  length a1 = length b1 -> length a1 = length c1 ->
  scalar_loop op (a1 ++ a2) (b1 ++ b2) (c1 ++ c2) =
  scalar_loop op a1 b1 c1 ++ scalar_loop op a2 b2 c2.
Proof.
  intros Hb Hc. unfold scalar_loop.
  rewrite (zip_with_app op a1 a2 b1 b2) by done.
  rewrite zip_with_app; [done|].
  rewrite length_zip_with. lia.
Qed.

(** A batch callable that works lane by lane does on a full batch what the
    per-element loop does with its lane function. *)
Lemma lanewise_batch {T n} (g : T -> T -> T -> T)
    (vop : vec T n -> vec T n -> vec T n -> vec T n) (x y z : vec T n) :
  (forall x y z j, vop x y z !!! j = g (x !!! j) (y !!! j) (z !!! j)) ->
  vec_to_list (vop x y z) =
  scalar_loop g (vec_to_list x) (vec_to_list y) (vec_to_list z).
Proof.
  intros Hg. rewrite scalar_loop_vec. f_equal.
  apply vec_eq. intros j. by rewrite Hg, lookup_map3.
Qed.

(** The engine's loop, position by position: the lane function on the
    positions of the full batches, the element callable on the remainder. *)
Lemma vectorized_loop3_positions {T} (E : Elem T)
    (op g : T -> T -> T -> T)
    (vop : vec T (size E) -> vec T (size E) -> vec T (size E) -> vec T (size E)) :
  (forall x y z j, vop x y z !!! j = g (x !!! j) (y !!! j) (z !!! j)) ->
  forall (k : nat) (a b c : list T),
    k * size E <= length a -> k * size E <= length b ->
    k * size E <= length c ->
    vectorized_loop3 E k op vop a b c =
    scalar_loop g (take (k * size E) a) (take (k * size E) b)
                  (take (k * size E) c)
    ++ scalar_loop op (drop (k * size E) a) (drop (k * size E) b)
                      (drop (k * size E) c).
Proof.
  intros Hg. induction k as [|k IH]; intros a b c Ha Hb Hc.
  - simpl. by rewrite !drop_0.
  - cbn [vectorized_loop3].
    rewrite (lanewise_batch g) by done.
    rewrite !vec_to_list_loadu by lia.
    rewrite IH by (rewrite length_drop; lia).
    rewrite !drop_drop.
    replace (S k * size E) with (size E + k * size E) by lia.
    rewrite <- !take_take_drop.
    rewrite scalar_loop_app by (rewrite !length_take; lia).
    by rewrite <- app_assoc.
Qed.

(** X2. For every element type that the dispatch instantiates, the
    tensor-weight kernel returns, and the output range then holds, position
    by position over the positions present in all three inputs: on the
    positions of the full batches, the value of the batch formula on the
    three inputs of that position; on the remaining positions, the scalar
    lerp of the three inputs of that position.  These are as many values as
    there are covered positions; what the output held beyond them stays, and
    the inputs are left as they were. *)
Theorem lerp_tensor_kernel_positions :
  forall (P : Platform)
         (scalar_lerp : forall T : Type, Elem T -> T -> T -> T -> T)
         (t : ScalarType) (E : Elem (ctype t))
         (out a b c : list (ctype t)),
    elem_of P t = Some E ->
    let numel := (length a `min` length b) `min` length c in
    let m := numel / size E * size E in
    let results :=
      scalar_loop (lane_value P E (scalar_lerp _ E))
        (take m a) (take m b) (take m c)
      ++ scalar_loop (scalar_lerp _ E) (drop m a) (drop m b) (drop m c) in
    lerp_tensor_kernel P scalar_lerp
      {| common_dtype := t; output := out; inputs := [a; b; c] |} =
    Returns {| common_dtype := t;
               output := results ++ drop numel out;
               inputs := [a; b; c] |}
    /\ length results = numel.
Proof.
  intros P scalar_lerp t E out a b c HE numel m results.
  assert (Hm : m <= numel) by (apply full_batches_fit; lia).
  assert (Hlen : length results = numel).
  { subst results. rewrite length_app, !length_scalar_loop.
    rewrite !length_take, !length_drop. lia. }
  split; [|done].
  unfold lerp_tensor_kernel, AT_DISPATCH_FLOATING_AND_COMPLEX_TYPES, propagate.
  cbn [common_dtype]. rewrite HE.
  unfold cpu_kernel_vec3, with_output, write_output.
  cbn [inputs common_dtype output].
  fold numel. fold m.
  rewrite (vectorized_loop3_positions E _ (lane_value P E (scalar_lerp _ E)))
    by (try lia; intros; by apply lerp_vec_at_lanewise).
  change (Returns {| common_dtype := t;
                     output := results ++ drop (length results) out;
                     inputs := [a; b; c] |} =
          Returns {| common_dtype := t;
                     output := results ++ drop numel out;
                     inputs := [a; b; c] |}).
  by rewrite Hlen.
Qed.

Lemma lerp_tensor_kernel_positions_witness :
  elem_of avx2 Double = Some double4
  /\ lerp_tensor_kernel avx2 (@lerp) five_doubles =
     Returns
       {| common_dtype := Double;
          output :=
            (scalar_loop (lane_value avx2 double4 (lerp double4))
               (take 4 (replicate 5 d_one)) (take 4 (replicate 5 d_ten))
               (take 4 (replicate 5 d_tenth))
             ++ scalar_loop (lerp double4)
                  (drop 4 (replicate 5 d_one)) (drop 4 (replicate 5 d_ten))
                  (drop 4 (replicate 5 d_tenth)))
            ++ drop 5 (replicate 5 d_zero);
          inputs := [replicate 5 d_one; replicate 5 d_ten;
                     replicate 5 d_tenth] |}.
Proof.
  split; [reflexivity|].
  apply (lerp_tensor_kernel_positions avx2 (@lerp) Double double4
           (replicate 5 d_zero) (replicate 5 d_one) (replicate 5 d_ten)
           (replicate 5 d_tenth)).
  reflexivity.
Defined.

Lemma vectorized_loop2_positions {T} (E : Elem T)
    (op g : T -> T -> T)
    (vop : vec T (size E) -> vec T (size E) -> vec T (size E)) :
  (forall x y j, vop x y !!! j = g (x !!! j) (y !!! j)) ->
  forall (k : nat) (a b : list T),
    k * size E <= length a -> k * size E <= length b ->
    vectorized_loop2 E k op vop a b =
    scalar_loop2 g (take (k * size E) a) (take (k * size E) b)
    ++ scalar_loop2 op (drop (k * size E) a) (drop (k * size E) b).
Proof.
  intros Hg. unfold scalar_loop2.
  induction k as [|k IH]; intros a b Ha Hb.
  - simpl. by rewrite !drop_0.
  - cbn [vectorized_loop2].
    assert (Hbatch : forall x y : vec T (size E),
               vec_to_list (vop x y) =
               zip_with g (vec_to_list x) (vec_to_list y)).
    { intros x y. rewrite <- vec_to_list_zip_with. f_equal.
      apply vec_eq. intros j. by rewrite Hg, vlookup_zip_with. }
    rewrite Hbatch, !vec_to_list_loadu by lia.
    rewrite IH by (rewrite length_drop; lia).
    rewrite !drop_drop.
    replace (S k * size E) with (size E + k * size E) by lia.
    rewrite <- !take_take_drop.
    rewrite zip_with_app by (rewrite !length_take; lia).
    by rewrite <- app_assoc.
Qed.

(** X3. For every element type that the dispatch instantiates, the
    scalar-weight kernel returns, and the output range then holds, position
    by position over the positions present in both inputs: on the positions
    of the full batches, the value of the batch formula on the two inputs of
    that position and the converted weight; on the remaining positions, the
    scalar lerp of them.  The weight is converted once, to the element type
    of the iterator; what the output held beyond the covered positions
    stays, and the inputs are left as they were. *)
Theorem lerp_scalar_kernel_positions :
  forall (P : Platform) (Scalar : Type)
         (to : forall t : ScalarType, Scalar -> ctype t)
         (scalar_lerp : forall T : Type, Elem T -> T -> T -> T -> T)
         (t : ScalarType) (E : Elem (ctype t))
         (out a b : list (ctype t)) (weight : Scalar),
    elem_of P t = Some E ->
    let numel := length a `min` length b in
    let m := numel / size E * size E in
    let weight_val := to t weight in
    let results :=
      scalar_loop2
        (fun s e => lane_value P E (scalar_lerp _ E) s e weight_val)
        (take m a) (take m b)
      ++ scalar_loop2 (fun s e => scalar_lerp _ E s e weight_val)
           (drop m a) (drop m b) in
    lerp_scalar_kernel P Scalar to scalar_lerp
      {| common_dtype := t; output := out; inputs := [a; b] |} weight =
    Returns {| common_dtype := t;
               output := results ++ drop numel out;
               inputs := [a; b] |}
    /\ length results = numel.
Proof.
  intros P Scalar to scalar_lerp t E out a b weight HE numel m weight_val
         results.
  assert (Hm : m <= numel) by (apply full_batches_fit; lia).
  assert (Hlen : length results = numel).
  { subst results. unfold scalar_loop2.
    rewrite length_app, !length_zip_with, !length_take, !length_drop. lia. }
  split; [|done].
  unfold lerp_scalar_kernel, AT_DISPATCH_FLOATING_AND_COMPLEX_TYPES, propagate.
  cbn [common_dtype]. rewrite HE.
  unfold cpu_kernel_vec2, with_output, write_output.
  cbn [inputs common_dtype output].
  fold numel. fold m. fold weight_val.
  rewrite (vectorized_loop2_positions E _
             (fun s e => lane_value P E (scalar_lerp _ E) s e weight_val)).
  - change (Returns {| common_dtype := t;
                       output := results ++ drop (length results) out;
                       inputs := [a; b] |} =
            Returns {| common_dtype := t;
                       output := results ++ drop numel out;
                       inputs := [a; b] |}).
    by rewrite Hlen.
  - intros x y j.
    rewrite (lerp_vec_at_lanewise P t E) by done.
    by rewrite lookup_broadcast.
  - lia.
  - lia.
Qed.

Lemma lerp_scalar_kernel_positions_witness :
  elem_of avx2 Double = Some double4
  /\ lerp_scalar_kernel avx2 Z integral_to (@lerp)
       {| common_dtype := Double; output := replicate 5 d_zero;
          inputs := [replicate 5 d_one; replicate 5 d_ten] |} 1%Z =
     Returns
       {| common_dtype := Double;
          output :=
            (scalar_loop2
               (fun s e => lane_value avx2 double4 (lerp double4) s e d_one)
               (take 4 (replicate 5 d_one)) (take 4 (replicate 5 d_ten))
             ++ scalar_loop2 (fun s e => lerp double4 s e d_one)
                  (drop 4 (replicate 5 d_one)) (drop 4 (replicate 5 d_ten)))
            ++ drop 5 (replicate 5 d_zero);
          inputs := [replicate 5 d_one; replicate 5 d_ten] |}.
Proof.
  split; [reflexivity|].
  apply (lerp_scalar_kernel_positions avx2 Z integral_to (@lerp)
           Double double4
           (replicate 5 d_zero) (replicate 5 d_one) (replicate 5 d_ten) 1%Z).
  reflexivity.
Defined.

(* ===================================================================== *)
(** * Further properties: the classifier                                 *)
(* ===================================================================== *)

Lemma abs_opp x : IEEE.abs (SFopp x) = IEEE.abs x.
Proof. by destruct x. Qed.

Lemma square_opp f x : IEEE.mul f (SFopp x) (SFopp x) = IEEE.mul f x x.
Proof. destruct x as [s|s| |s m e]; try done; by destruct s. Qed.

(** A square is never the negative infinity, and the square of an infinity
    or a NaN is the positive infinity or a NaN. *)
Lemma square_sign f x : IEEE.mul f x x <> S754_infinity true.
Proof.
  destruct x as [s|s| |s m e]; try done; try (by destruct s).
  unfold IEEE.mul, SFmul.
  destruct (binary_round_aux_spec (IEEE.prec f) (IEEE.emax f)
              (xorb s s) (m * m) (e + e)) as (m1' & _ & ->).
  cbv zeta. destruct (_ / _)%Z as [|q|q]; try done.
  destruct (_ <=? _)%Z; by destruct s.
Qed.

Lemma square_nonfinite f x :
  IEEE.is_finite x = false ->
  IEEE.mul f x x = S754_infinity false \/ IEEE.mul f x x = IEEE.NaN.
Proof. destruct x as [s|s| |s m e]; try done; [left; by destruct s|by right]. Qed.

(** Nothing is above the positive infinity or compares with a NaN. *)
Lemma ltb_pos_inf_sum f r y :
  r <> S754_infinity true ->
  IEEE.ltb (IEEE.add f (S754_infinity false) r) y = false
  /\ IEEE.ltb (IEEE.add f r (S754_infinity false)) y = false.
Proof.
  intros Hr. rewrite (fadd_comm f r).
  destruct r as [s|[]| |s m e]; try done; by destruct y as [|[]| |].
Qed.

(** A sum of two squares that is below some bound is the sum of the
    squares of two finite numbers. *)
Lemma small_square_sum_finite f a b y :
  IEEE.ltb (IEEE.add f (IEEE.mul f a a) (IEEE.mul f b b)) y = true ->
  IEEE.is_finite a = true /\ IEEE.is_finite b = true.
Proof.
  intros H.
  destruct (IEEE.is_finite a) eqn:Fa.
  - destruct (IEEE.is_finite b) eqn:Fb; [done|exfalso].
    destruct (square_nonfinite f b Fb) as [Hb|Hb]; rewrite Hb in H.
    + destruct (ltb_pos_inf_sum f _ y (square_sign f a)) as [_ H'].
      by rewrite H' in H.
    + by rewrite add_nan_r in H.
  - exfalso.
    destruct (square_nonfinite f a Fa) as [Ha|Ha]; rewrite Ha in H.
    + destruct (ltb_pos_inf_sum f _ y (square_sign f b)) as [H' _].
      by rewrite H' in H.
    + by rewrite add_nan_l in H.
Qed.

(** X4. The magnitude classifier does not see the sign of the weight: on
    real lanes the mask of the negated batch is the mask of the batch, and
    on complex lanes the mask is unchanged when every weight is negated,
    conjugated, or has its two components exchanged. *)
Theorem is_lerp_weight_small_symmetric :
  forall (f : IEEE.format) (n : nat)
         (weight : vec spec_float n) (cweight : vec complex n),
    is_lerp_weight_small f (vmap SFopp weight) = is_lerp_weight_small f weight
    /\ is_lerp_weight_small_complex f (vmap complex_opp cweight) =
       is_lerp_weight_small_complex f cweight
    /\ is_lerp_weight_small_complex f (vmap complex_conj cweight) =
       is_lerp_weight_small_complex f cweight
    /\ is_lerp_weight_small_complex f (vmap complex_swap cweight) =
       is_lerp_weight_small_complex f cweight.
Proof.
  intros f n weight cweight. repeat split; apply vec_eq; intros i.
  - rewrite !is_lerp_weight_small_lane, vlookup_map. by rewrite abs_opp.
  - rewrite !is_lerp_weight_small_complex_lane, vlookup_map. cbn.
    by rewrite !square_opp.
  - rewrite !is_lerp_weight_small_complex_lane, vlookup_map. cbn.
    by rewrite !square_opp.
  - rewrite !is_lerp_weight_small_complex_lane, vlookup_map. cbn.
    by rewrite (fadd_comm f (IEEE.mul f (imag _) _)).
Qed.

(** X5. The mask is set only at finite weights: a real lane classified as
    small holds neither an infinity nor a NaN, and a complex lane classified
    as small has two finite components, in both slots of its mask.  So an
    infinite or NaN weight always takes the end-anchored branch. *)
Theorem small_weight_is_finite :
  (forall (f : IEEE.format) (n : nat) (weight : vec spec_float n) (i : fin n),
      is_lerp_weight_small f weight !!! i = true ->
      IEEE.is_finite (weight !!! i) = true)
  /\ (forall (f : IEEE.format) (n : nat) (weight : vec complex n) (i : fin n),
      fst (is_lerp_weight_small_complex f weight !!! i) = true
      \/ snd (is_lerp_weight_small_complex f weight !!! i) = true ->
      complex_is_finite (weight !!! i) = true).
Proof.
  split.
  - intros f n weight i. rewrite is_lerp_weight_small_lane.
    by destruct (weight !!! i), f.
  - intros f n weight i. rewrite is_lerp_weight_small_complex_lane. cbn.
    intros [H|H]; apply small_square_sum_finite in H as [Hr Hi];
      unfold complex_is_finite; by rewrite Hr, Hi.
Qed.

Lemma small_weight_is_finite_witness :
  is_lerp_weight_small IEEE.binary64 sample_weight !!! 0%fin = true
  /\ IEEE.is_finite (sample_weight !!! 0%fin) = true
  /\ (fst (is_lerp_weight_small_complex IEEE.binary64 sample_cweight !!! 0%fin)
        = true
      \/ snd (is_lerp_weight_small_complex IEEE.binary64 sample_cweight
                !!! 0%fin) = true)
  /\ complex_is_finite (sample_cweight !!! 0%fin) = true.
Proof.
  split; [reflexivity|]. split.
  - apply (proj1 small_weight_is_finite IEEE.binary64 4 sample_weight 0%fin).
    reflexivity.
  - split; [left; reflexivity|].
    apply (proj2 small_weight_is_finite IEEE.binary64 4 sample_cweight 0%fin).
    left. reflexivity.
Defined.

(* ===================================================================== *)
(** * Further properties: infinities and NaN                             *)
(* ===================================================================== *)

Lemma fma_finite_inv f c d z :
  IEEE.is_finite (IEEE.fma f c d z) = true ->
  IEEE.is_finite c = true /\ IEEE.is_finite d = true /\ IEEE.is_finite z = true.
Proof.
  destruct c as [sc|sc| |sc mc ec], d as [sd|sd| |sd md ed],
           z as [sz|sz| |sz mz ez]; try done;
    unfold IEEE.fma, IEEE.exact_mul; try done;
    by destruct (Bool.eqb _ _).
Qed.

Lemma mul_finite_inv f x y :
  IEEE.is_finite (IEEE.mul f x y) = true ->
  IEEE.is_finite x = true /\ IEEE.is_finite y = true.
Proof.
  destruct x as [sx|sx| |sx mx ex], y as [sy|sy| |sy my ey]; done.
Qed.

Lemma add_finite_inv f x y :
  IEEE.is_finite (IEEE.add f x y) = true ->
  IEEE.is_finite x = true /\ IEEE.is_finite y = true.
Proof.
  destruct x as [sx|sx| |sx mx ex], y as [sy|sy| |sy my ey]; try done;
    by destruct sx, sy.
Qed.

Lemma c_fmadd_finite_inv f c d z :
  complex_is_finite (c_fmadd (componentwise f) c d z) = true ->
  complex_is_finite c = true /\ complex_is_finite d = true
  /\ complex_is_finite z = true.
Proof.
  intros [H1 H2]%complex_finite_inv. cbn in H1, H2.
  apply add_finite_inv in H1 as [H1 Hzr]. apply add_finite_inv in H2 as [_ Hzi].
  apply sub_finite_inv in H1 as [Hrr Hii].
  apply mul_finite_inv in Hrr as [Hcr Hdr].
  apply mul_finite_inv in Hii as [Hci Hdi].
  unfold complex_is_finite.
  by rewrite Hcr, Hci, Hdr, Hdi, Hzr, Hzi.
Qed.

(** X6. The vectorized formula never makes a finite number out of an
    infinity or a NaN: on a [float] or [double] lane whose result is finite,
    start, end and weight are all finite; and so it is on complex lanes,
    for both components, under the component-wise complex arithmetic. *)
Theorem finite_result_needs_finite_operands :
  (forall (f : IEEE.format) (width n : nat)
          (start end_ weight : vec spec_float n) (i : fin n),
      IEEE.is_finite (lerp_vec (real_elem f width) start end_ weight !!! i)
        = true ->
      IEEE.is_finite (start !!! i) = true
      /\ IEEE.is_finite (end_ !!! i) = true
      /\ IEEE.is_finite (weight !!! i) = true)
  /\ (forall (f : IEEE.format) (width n : nat)
             (start end_ weight : vec complex n) (i : fin n),
      complex_is_finite
        (lerp_vec (complex_elem f width (componentwise f)) start end_ weight
           !!! i) = true ->
      complex_is_finite (start !!! i) = true
      /\ complex_is_finite (end_ !!! i) = true
      /\ complex_is_finite (weight !!! i) = true).
Proof.
  split.
  - intros f width n start end_ weight i. rewrite lerp_vec_real_lane.
    cbv zeta. intros (Hc & Hd & _)%fma_finite_inv.
    apply sub_finite_inv in Hd as [He Hs]. repeat split; try done.
    destruct (IEEE.ltb _ _); [done|].
    by apply sub_finite_inv in Hc as [Hw _].
  - intros f width n start end_ weight i. rewrite lerp_vec_complex_lane.
    cbv zeta. intros (Hc & Hd & _)%c_fmadd_finite_inv.
    apply c_minus_finite_inv in Hd as [He Hs]. repeat split; try done.
    destruct (IEEE.ltb _ _); [done|].
    by apply c_minus_finite_inv in Hc as [Hw _].
Qed.

Lemma finite_result_needs_finite_operands_witness :
  IEEE.is_finite (lerp_vec double4 sample_start sample_end sample_weight
                    !!! 0%fin) = true
  /\ IEEE.is_finite (sample_start !!! 0%fin) = true
  /\ IEEE.is_finite (sample_end !!! 0%fin) = true
  /\ IEEE.is_finite (sample_weight !!! 0%fin) = true.
Proof.
  split; [reflexivity|].
  apply (proj1 finite_result_needs_finite_operands IEEE.binary64 4 4
           sample_start sample_end sample_weight 0%fin).
  reflexivity.
Defined.

(* ===================================================================== *)
(** * Further properties: equal endpoints                                *)
(* ===================================================================== *)

(** Two numbers that compare equal are two zeros, or the same value. *)
Lemma eqb_true_inv x y :
  IEEE.eqb x y = true ->
  (IEEE.is_zero x = true /\ IEEE.is_zero y = true) \/ x = y.
Proof.
  unfold IEEE.eqb, SFeqb, SFcompare.
  destruct x as [sx|sx| |sx mx ex], y as [sy|sy| |sy my ey]; try done;
    try (by left); try (by destruct sx, sy; try done; right);
    try (by destruct sx); try (by destruct sy).
  destruct sx, sy; try done;
    (destruct (Z.compare_spec ex ey) as [->|?|?]; [|done|done]);
    change (Pos.compare_cont Eq mx my) with (Pos.compare mx my);
    (destruct (Pos.compare_spec mx my) as [->|?|?]; [|done|done]);
    by right.
Qed.

Lemma sub_self f x :
  IEEE.is_finite x = true -> IEEE.sub f x x = S754_zero false.
Proof.
  destruct x as [s|s| |s m e]; try done; intros _.
  - by destruct s.
  - unfold IEEE.sub, SFsub. cbv zeta. by rewrite Z.sub_diag.
Qed.

Lemma sub_self_infinite f x :
  IEEE.is_finite x = false -> IEEE.sub f x x = IEEE.NaN.
Proof. destruct x as [s|s| |s m e]; try done; by destruct s. Qed.

Lemma sub_equal f x y :
  IEEE.eqb x y = true -> IEEE.is_finite x = true ->
  IEEE.is_zero (IEEE.sub f y x) = true /\ IEEE.is_finite y = true
  /\ same_number y x /\ same_number x y.
Proof.
  intros [[Hx Hy]| <-]%eqb_true_inv Hf.
  - destruct x as [sx| | |], y as [sy| | |]; try done.
    repeat split; try done; by destruct sx, sy.
  - rewrite sub_self by done. repeat split; try done; by apply eqb_refl_finite.
Qed.

(** A finite coefficient times a zero difference contributes nothing. *)
Lemma fma_zero_diff f c d z :
  IEEE.is_finite c = true -> IEEE.is_zero d = true -> IEEE.is_finite z = true ->
  same_number (IEEE.fma f c d z) z.
Proof.
  destruct d as [sd| | |]; try done.
  destruct c as [sc|sc| |sc mc ec]; try done; intros _ _;
    (destruct z as [sz|sz| |sz mz ez]; try done; intros _;
     [ destruct sc, sd, sz; apply same_number_zeros
     | by apply same_number_finite ]).
Qed.

Lemma fma_nan_diff f c z : IEEE.fma f c IEEE.NaN z = IEEE.NaN.
Proof. by destruct c. Qed.

Lemma same_number_trans x y z :
  same_number x y -> same_number y z -> same_number x z.
Proof.
  intros [Hxy Hxy'] [Hyz Hyz'].
  destruct (eqb_true_inv _ _ Hyz) as [[Hy Hz]| <-]; [|done].
  destruct (eqb_true_inv _ _ Hxy) as [[Hx _]| ->].
  - by destruct x, z.
  - done.
Qed.

(** X7. Where start and end compare equal the difference [end - start]
    carries no information, and the weight does not matter as long as the
    coefficient is finite: on a [float] or [double] lane with finite equal
    endpoints and a weight for which [weight - 1] is finite (so the weight
    is finite too), the vectorized formula returns a value equal to start
    and to end, bit for bit unless they are zeros.  Where the two endpoints
    are the same infinity, [end - start] is NaN and so is the result, for
    every weight. *)
Theorem equal_endpoints :
  forall (f : IEEE.format) (width n : nat)
         (start end_ weight : vec spec_float n) (i : fin n),
    IEEE.eqb (start !!! i) (end_ !!! i) = true ->
    let r := lerp_vec (real_elem f width) start end_ weight !!! i in
    (IEEE.is_finite (start !!! i) = true ->
     IEEE.is_finite (IEEE.sub f (weight !!! i) (IEEE.one f)) = true ->
     same_number r (start !!! i) /\ same_number r (end_ !!! i))
    /\ (IEEE.is_finite (start !!! i) = false -> r = IEEE.NaN).
Proof.
  intros f width n start end_ weight i Heq r. subst r.
  rewrite lerp_vec_real_lane. cbv zeta. split.
  - intros Hs Hc.
    destruct (sub_equal f _ _ Heq Hs) as (Hd & He & Hes & Hse).
    destruct (sub_finite_inv _ _ _ Hc) as [Hw _].
    destruct (IEEE.ltb _ _).
    + pose proof (fma_zero_diff f (weight !!! i) _ (start !!! i) Hw Hd Hs).
      split; [done|]. by apply (same_number_trans _ (start !!! i)).
    + pose proof (fma_zero_diff f _ _ (end_ !!! i) Hc Hd He).
      split; [|done]. by apply (same_number_trans _ (end_ !!! i)).
  - intros Hs.
    destruct (eqb_true_inv _ _ Heq) as [[Hz _]| <-].
    + by destruct (start !!! i).
    + rewrite sub_self_infinite by done. apply fma_nan_diff.
Qed.

Lemma equal_endpoints_witness :
  IEEE.eqb (d_of 3 0) (d_of 3 0) = true
  /\ IEEE.is_finite (d_of 3 0) = true
  /\ IEEE.is_finite (IEEE.sub IEEE.binary64 d_tenth (IEEE.one IEEE.binary64))
     = true
  /\ same_number
       (lerp_vec double4 [# d_of 3 0; d_inf] [# d_of 3 0; d_inf]
          [# d_tenth; d_one] !!! 0%fin)
       (d_of 3 0)
  /\ lerp_vec double4 [# d_of 3 0; d_inf] [# d_of 3 0; d_inf]
       [# d_tenth; d_one] !!! 1%fin = IEEE.NaN.
Proof.
  split; [reflexivity|]. split; [reflexivity|]. split; [reflexivity|].
  split.
  - apply (proj1 (equal_endpoints IEEE.binary64 4 2
                    [# d_of 3 0; d_inf] [# d_of 3 0; d_inf]
                    [# d_tenth; d_one] 0%fin eq_refl));
      reflexivity.
  - apply (proj2 (equal_endpoints IEEE.binary64 4 2
                    [# d_of 3 0; d_inf] [# d_of 3 0; d_inf]
                    [# d_tenth; d_one] 1%fin eq_refl)).
    reflexivity.
Defined.

(* ===================================================================== *)
(** * Further properties: complex kernels of the fallback tier           *)
(* ===================================================================== *)

Lemma scalar_loop_take_drop {T} (op : T -> T -> T -> T) (m : nat)
    (a b c : list T) :
  m <= length a -> m <= length b -> m <= length c ->
  scalar_loop op (take m a) (take m b) (take m c)
  ++ scalar_loop op (drop m a) (drop m b) (drop m c) =
  scalar_loop op a b c.
Proof.
  intros Ha Hb Hc.
  rewrite <- scalar_loop_app by (rewrite !length_take; lia).
  by rewrite !take_drop.
Qed.

Lemma scalar_loop2_take_drop {T} (op : T -> T -> T) (m : nat) (a b : list T) :
  m <= length a -> m <= length b ->
  scalar_loop2 op (take m a) (take m b)
  ++ scalar_loop2 op (drop m a) (drop m b) =
  scalar_loop2 op a b.
Proof.
  intros Ha Hb. unfold scalar_loop2.
  rewrite <- zip_with_app by (rewrite !length_take; lia).
  by rewrite !take_drop.
Qed.

(** X8. On the fallback tier (where line 21 leaves the complex classifier
    out) vectorization cannot be observed at a complex element type: both
    kernels return, and the output range then holds, at every covered
    position, batch or remainder alike, the scalar lerp of the inputs of
    that position, as the plain per-element loop would leave it. *)
Theorem complex_kernels_on_fallback_tier :
  forall (P : Platform) (Scalar : Type)
         (to : forall t : ScalarType, Scalar -> ctype t)
         (scalar_lerp : forall T : Type, Elem T -> T -> T -> T -> T)
         (t : ScalarType) (E : Elem (ctype t))
         (out a b c : list (ctype t)) (weight : Scalar),
    elem_of P t = Some E ->
    isComplexType t = true ->
    direct_complex P = false ->
    lerp_tensor_kernel P scalar_lerp
      {| common_dtype := t; output := out; inputs := [a; b; c] |} =
    Returns {| common_dtype := t;
               output := scalar_loop (scalar_lerp _ E) a b c
                         ++ drop ((length a `min` length b) `min` length c) out;
               inputs := [a; b; c] |}
    /\ lerp_scalar_kernel P Scalar to scalar_lerp
         {| common_dtype := t; output := out; inputs := [a; b] |} weight =
       Returns {| common_dtype := t;
                  output := scalar_loop2
                              (fun s e => scalar_lerp _ E s e (to t weight)) a b
                            ++ drop (length a `min` length b) out;
                  inputs := [a; b] |}.
Proof.
  intros P Scalar to scalar_lerp t E out a b c weight HE Ht HP.
  unfold lerp_tensor_kernel, lerp_scalar_kernel,
    AT_DISPATCH_FLOATING_AND_COMPLEX_TYPES, propagate.
  cbn [common_dtype]. rewrite HE.
  unfold cpu_kernel_vec3, cpu_kernel_vec2, with_output, write_output.
  cbn [inputs common_dtype output].
  split.
  - set (numel := (length a `min` length b) `min` length c).
    assert (Hm : numel / size E * size E <= numel)
      by (apply full_batches_fit; lia).
    rewrite (vectorized_loop3_positions E _ (scalar_lerp _ E))
      by (try lia; intros; by apply lerp_vec_at_fallback).
    rewrite scalar_loop_take_drop by lia.
    by rewrite length_scalar_loop.
  - set (numel := length a `min` length b).
    assert (Hm : numel / size E * size E <= numel)
      by (apply full_batches_fit; lia).
    rewrite (vectorized_loop2_positions E _
               (fun s e => scalar_lerp _ E s e (to t weight))).
    + rewrite scalar_loop2_take_drop by lia.
      unfold scalar_loop2. by rewrite length_zip_with.
    + intros x y j.
      rewrite (lerp_vec_at_fallback P t E) by done.
      by rewrite lookup_broadcast.
    + lia.
    + lia.
Qed.

Lemma complex_kernels_on_fallback_tier_witness :
  elem_of default_tier ComplexDouble = Some cdouble2
  /\ isComplexType ComplexDouble = true
  /\ direct_complex default_tier = false
  /\ lerp_tensor_kernel default_tier (@lerp)
       {| common_dtype := ComplexDouble;
          output := [Complex d_zero d_zero];
          inputs := [vec_to_list sample_cstart; vec_to_list sample_cend;
                     vec_to_list sample_cw] |} =
     Returns
       {| common_dtype := ComplexDouble;
          output :=
            scalar_loop (lerp cdouble2) (vec_to_list sample_cstart)
              (vec_to_list sample_cend) (vec_to_list sample_cw)
            ++ drop 2 [Complex d_zero d_zero];
          inputs := [vec_to_list sample_cstart; vec_to_list sample_cend;
                     vec_to_list sample_cw] |}.
Proof.
  split; [reflexivity|]. split; [reflexivity|]. split; [reflexivity|].
  apply (proj1 (complex_kernels_on_fallback_tier default_tier Z integral_to
                  (@lerp) ComplexDouble cdouble2 [Complex d_zero d_zero]
                  (vec_to_list sample_cstart) (vec_to_list sample_cend)
                  (vec_to_list sample_cw) 0%Z eq_refl eq_refl eq_refl)).
Defined.
